(** * CRMStore: the page script [static/js/app.js]

    A shallow embedding of the behaviours wired up by [init()]: theme
    persistence, the submit loading state, row-click navigation, the
    confirmation modal, the keyboard shortcuts and the debounced global
    search.  Every handler becomes a function on an explicit state; effects
    on the browser (navigation, form submission, network requests, timers)
    are recorded in that state. *)

From Stdlib Require Import NArith Ascii.
From stdpp Require Import base option list strings gmap.

(** ** JavaScript values the script manipulates *)

Module Js.

(** The double quote character, written with its code point. *)
Definition dq : string := String (ascii_of_nat 34) "".

(** Truthiness of a string value: only the empty string is falsy. *)
Definition truthy (s : string) : bool :=
  match s with "" => false | _ => true end.

(** [x || d] for a property that is [undefined] when absent. *)
Definition or_default (x : option string) (d : string) : string :=
  match x with
  | Some s => if truthy s then s else d
  | None => d
  end.

(** Template-literal coercion of a possibly [undefined] string. *)
Definition to_template (x : option string) : string :=
  match x with Some s => s | None => "undefined" end.

(** [String.prototype.toLowerCase] on the ASCII range; bytes outside it
    are kept (no non-ASCII letter lower-cases to an ASCII one that the
    script compares against). *)
Definition lower_ascii (c : ascii) : ascii :=
  let n := nat_of_ascii c in
  if (65 <=? n) && (n <=? 90) then ascii_of_nat (n + 32) else c.

Fixpoint toLowerCase (s : string) : string :=
  match s with
  | "" => ""
  | String c r => String (lower_ascii c) (toLowerCase r)
  end.

(** Exceptions a handler can raise. *)
Inductive exn : Type :=
| TypeError
| URIError
| SyntaxError
| Error (msg : string).

(** Completion of a block: normal with a value, or abrupt. *)
Inductive completion (A : Type) : Type :=
| Normal (a : A)
| Throw (e : exn).
Arguments Normal {A} a.
Arguments Throw {A} e.

Definition bind {A B} (c : completion A) (k : A → completion B) : completion B :=
  match c with
  | Normal a => k a
  | Throw e => Throw e
  end.

(** [try { body } catch (error) { handler }] *)
Definition try_catch {A} (body : completion A) (handler : exn → completion A)
  : completion A :=
  match body with
  | Normal a => Normal a
  | Throw e => handler e
  end.

(** *** DOM strings as UTF-16 code units

    [input.value] is a sequence of 16-bit code units; [length] counts
    them and [trim] inspects them one by one. *)
Abbreviation domstring := (list N).

(** WhiteSpace and LineTerminator code units (ECMAScript 12.2, 12.3). *)
Definition is_white (u : N) : bool :=
  (  (u =? 0x9) || (u =? 0xA) || (u =? 0xB) || (u =? 0xC) || (u =? 0xD)
  || (u =? 0x20) || (u =? 0xA0) || (u =? 0x1680)
  || ((0x2000 <=? u) && (u <=? 0x200A))
  || (u =? 0x2028) || (u =? 0x2029) || (u =? 0x202F) || (u =? 0x205F)
  || (u =? 0x3000) || (u =? 0xFEFF))%N.

Fixpoint trimStart (s : domstring) : domstring :=
  match s with
  | [] => []
  | u :: r => if is_white u then trimStart r else s
  end.

Definition trimEnd (s : domstring) : domstring := rev (trimStart (rev s)).

Definition trim (s : domstring) : domstring := trimEnd (trimStart s).

(** *** [encodeURIComponent] (ECMAScript 19.2.6.5, Encode) *)

Definition hex_digit (n : N) : ascii :=
  ascii_of_N (if (n <? 10)%N then 48 + n else 55 + n).

Definition percent (byte : N) : string :=
  String "%" (String (hex_digit (byte / 16)) (String (hex_digit (byte mod 16)) "")).

(** Characters left as they are: letters, digits and [-_.!~*'()]. *)
Definition unreserved (u : N) : bool :=
  (  ((0x41 <=? u) && (u <=? 0x5A)) || ((0x61 <=? u) && (u <=? 0x7A))
  || ((0x30 <=? u) && (u <=? 0x39))
  || (u =? 0x2D) || (u =? 0x5F) || (u =? 0x2E) || (u =? 0x21) || (u =? 0x7E)
  || (u =? 0x2A) || (u =? 0x27) || (u =? 0x28) || (u =? 0x29))%N.

(** UTF-8 octets of a code point, each percent-escaped. *)
Definition utf8_escaped (cp : N) : string :=
  (if cp <? 0x80 then percent cp
   else if cp <? 0x800 then
     percent (0xC0 + cp / 64) +:+ percent (0x80 + cp mod 64)
   else if cp <? 0x10000 then
     percent (0xE0 + cp / 4096) +:+ percent (0x80 + (cp / 64) mod 64)
     +:+ percent (0x80 + cp mod 64)
   else
     percent (0xF0 + cp / 262144) +:+ percent (0x80 + (cp / 4096) mod 64)
     +:+ percent (0x80 + (cp / 64) mod 64) +:+ percent (0x80 + cp mod 64))%N.

Definition is_lead (u : N) : bool := ((0xD800 <=? u) && (u <=? 0xDBFF))%N.
Definition is_trail (u : N) : bool := ((0xDC00 <=? u) && (u <=? 0xDFFF))%N.

(** A lone surrogate makes the call throw a URIError. *)
Fixpoint encodeURIComponent (s : domstring) : completion string :=
  match s with
  | [] => Normal ""
  | u :: r =>
      if unreserved u then
        bind (encodeURIComponent r) (λ t, Normal (String (ascii_of_N u) t))
      else if is_trail u then Throw URIError
      else if is_lead u then
        match r with
        | v :: r' =>
            if is_trail v then
              bind (encodeURIComponent r')
                (λ t, Normal (utf8_escaped
                                (0x10000 + (u - 0xD800) * 0x400 + (v - 0xDC00))%N
                              +:+ t))
            else Throw URIError
        | [] => Throw URIError
        end
      else bind (encodeURIComponent r) (λ t, Normal (utf8_escaped u +:+ t))
  end.

(** Code units are 16 bits wide. *)
Definition sixteen_bit (s : domstring) : Prop := Forall (λ u, (u < 0x10000)%N) s.

(** A string made of unreserved characters and percent signs only. *)
Fixpoint url_safe (s : string) : Prop :=
  match s with
  | "" => True
  | String c r => (c = "%"%char ∨ unreserved (N_of_ascii c) = true) ∧ url_safe r
  end.

(** A string of whitespace only. *)
Definition blank (s : domstring) : Prop := Forall (λ u, is_white u = true) s.

End Js.

(** ** The parts of the DOM the handlers read and write *)

Module Dom.

Record element := {
  tagName : string;                  (* upper case, as HTML reports it *)
  attributes : gmap string string;   (* content attributes *)
  classList : list string;
  disabled : bool;
  innerHTML : string;
  href : option string;              (* the [href] property, if the element has one *)
  type : option string;              (* the [type] property, if the element has one *)
}.

(** A reference to an element in the tree: the element and its ancestors,
    nearest first. *)
Record node := { self : element; ancestors : list element }.

Definition getAttribute (e : element) (name : string) : option string :=
  attributes e !! name.

Definition setAttribute (name value : string) (e : element) : element :=
  {| tagName := tagName e; attributes := <[name := value]> (attributes e);
     classList := classList e; disabled := disabled e;
     innerHTML := innerHTML e; href := href e; type := type e |}.

(** [dataset.camelCase] reflects the attribute [data-camel-case]. *)
Fixpoint kebab (s : string) : string :=
  match s with
  | "" => ""
  | String c r =>
      let n := nat_of_ascii c in
      if (65 <=? n) && (n <=? 90)
      then String "-" (String (Js.lower_ascii c) (kebab r))
      else String c (kebab r)
  end.

Definition dataset_attr (key : string) : string := "data-" +:+ kebab key.

Definition dataset (e : element) (key : string) : option string :=
  getAttribute e (dataset_attr key).

Definition set_dataset (key value : string) (e : element) : element :=
  setAttribute (dataset_attr key) value e.

(** [classList.add]: a token already present is not added again. *)
Definition classList_add (c : string) (e : element) : element :=
  {| tagName := tagName e; attributes := attributes e;
     classList := if bool_decide (c ∈ classList e) then classList e
                  else classList e ++ [c];
     disabled := disabled e; innerHTML := innerHTML e;
     href := href e; type := type e |}.

Definition set_disabled (b : bool) (e : element) : element :=
  {| tagName := tagName e; attributes := attributes e;
     classList := classList e; disabled := b; innerHTML := innerHTML e;
     href := href e; type := type e |}.

Definition set_innerHTML (h : string) (e : element) : element :=
  {| tagName := tagName e; attributes := attributes e;
     classList := classList e; disabled := disabled e; innerHTML := h;
     href := href e; type := type e |}.

(** [classList.remove] and [classList.contains]. *)
Definition classList_remove (c : string) (e : element) : element :=
  {| tagName := tagName e; attributes := attributes e;
     classList := filter (λ x, x ≠ c) (classList e);
     disabled := disabled e; innerHTML := innerHTML e;
     href := href e; type := type e |}.

Definition has_class (c : string) (e : element) : Prop := c ∈ classList e.

(** [classList.add] also rewrites the [class] attribute, which holds the
    tokens separated by spaces. *)
Definition classList_add_reflected (c : string) (e : element) : element :=
  let e' := classList_add c e in
  setAttribute "class" (String.concat " " (classList e')) e'.

(** The [disabled] property reflects the boolean attribute of that name. *)
Definition set_disabled_reflected (b : bool) (e : element) : element :=
  let e' := set_disabled b e in
  {| tagName := tagName e';
     attributes := if b then <["disabled" := ""]> (attributes e')
                   else delete "disabled" (attributes e');
     classList := classList e'; disabled := disabled e';
     innerHTML := innerHTML e'; href := href e'; type := type e' |}.

(** Void elements: their children are not rendered and [innerHTML] reads
    back empty whatever was assigned. *)
Definition void (e : element) : bool :=
  bool_decide (tagName e ∈ ["AREA"; "BASE"; "BR"; "COL"; "EMBED"; "HR"; "IMG";
                            "INPUT"; "LINK"; "META"; "SOURCE"; "TRACK"; "WBR"]).

(** Assignment to [innerHTML]: afterwards the field holds the markup the
    content was made from, and nothing for a void element. *)
Definition assign_innerHTML (h : string) (e : element) : element :=
  set_innerHTML (if void e then "" else h) e.

(** A type selector matches HTML elements by tag name. *)
Definition has_tag (tags : list string) (e : element) : bool :=
  bool_decide (tagName e ∈ tags).

(** [Element.closest]: the element itself or its nearest matching ancestor. *)
Fixpoint closest_from (sel : element → bool) (e : element) (ups : list element)
  : option node :=
  if sel e then Some {| self := e; ancestors := ups |}
  else match ups with
       | [] => None
       | p :: ups' => closest_from sel p ups'
       end.

Definition closest (sel : element → bool) (n : node) : option node :=
  closest_from sel (self n) (ancestors n).

(** [String.prototype.includes], as the [*=] attribute selector needs it. *)
Fixpoint includes (needle s : string) : bool :=
  String.prefix needle s
  || match s with
     | "" => false
     | String _ r => includes needle r
     end.

End Dom.

(** ** Theme manager: [setTheme], [initTheme] *)

Module Theme.
Import Js.

Definition THEME_KEY : string := "crm_theme".

Record page := {
  localStorage : gmap string string;
  root_attributes : gmap string string;  (* of [document.documentElement] *)
  themeToggle : option string;           (* innerHTML of #themeToggle, if present *)
  toggle_bound : bool;                   (* the click listener is attached *)
}.

Definition sun_label : string :=
  "<i class=" +:+ dq +:+ "bi bi-sun" +:+ dq +:+ "></i><span>Світла тема</span>".
Definition moon_label : string :=
  "<i class=" +:+ dq +:+ "bi bi-moon-stars" +:+ dq +:+ "></i><span>Темна тема</span>".

Definition setTheme (theme : string) (p : page) : page :=
  {| localStorage := <[THEME_KEY := theme]> (localStorage p);
     root_attributes := <["data-theme" := theme]> (root_attributes p);
     themeToggle :=
       match themeToggle p with
       | Some _ => Some (if bool_decide (theme = "dark") then sun_label else moon_label)
       | None => None
       end;
     toggle_bound := toggle_bound p |}.

(** The listener registered by [initTheme] on the toggle. *)
Definition toggle_listener (p : page) : page :=
  setTheme (if bool_decide (root_attributes p !! "data-theme" = Some "dark")
            then "light" else "dark") p.

Definition bind_toggle (p : page) : page :=
  {| localStorage := localStorage p; root_attributes := root_attributes p;
     themeToggle := themeToggle p;
     toggle_bound := bool_decide (is_Some (themeToggle p)) |}.

(** [prefers_dark] is [matchMedia('(prefers-color-scheme: dark)').matches]. *)
Definition initTheme (prefers_dark : bool) (p : page) : page :=
  let p' :=
    match localStorage p !! THEME_KEY with
    | Some savedTheme =>
        if truthy savedTheme then setTheme savedTheme p
        else setTheme (if prefers_dark then "dark" else "light") p
    | None => setTheme (if prefers_dark then "dark" else "light") p
    end in
  bind_toggle p'.

(** The theme name initialization applies: the saved one when it is a
    non-empty string, the system preference otherwise. *)
Definition initial_theme (prefers_dark : bool) (p : page) : string :=
  match localStorage p !! THEME_KEY with
  | Some saved => if truthy saved then saved
                  else if prefers_dark then "dark" else "light"
  | None => if prefers_dark then "dark" else "light"
  end.

(** A click on the toggle runs the listener when one is attached. *)
Definition click_toggle (p : page) : page :=
  if toggle_bound p then toggle_listener p else p.

Inductive op := Init (prefers_dark : bool) | Toggle.

Definition step (o : op) (p : page) : page :=
  match o with
  | Init d => initTheme d p
  | Toggle => click_toggle p
  end.

Definition run (ops : list op) (p : page) : page :=
  foldl (λ q o, step o q) p ops.

Definition stored (p : page) : option string := localStorage p !! THEME_KEY.
Definition theme_attr (p : page) : option string := root_attributes p !! "data-theme".

Definition light_or_dark (v : option string) : Prop :=
  v = Some "light" ∨ v = Some "dark".

(** What the storage holds when only this script has written the key
    (nothing yet, or a value [setTheme] was given), or an empty string. *)
Definition clean_store (p : page) : Prop :=
  stored p = None ∨ stored p = Some "" ∨ light_or_dark (stored p).

(** The attribute and the store agree, and the toggle, if there is one,
    carries the label that goes with the theme: the sun for [dark], the moon
    for anything else. *)
Definition coherent (p : page) : Prop :=
  theme_attr p = stored p
  ∧ ∀ h, themeToggle p = Some h →
         h = if bool_decide (theme_attr p = Some "dark") then sun_label else moon_label.

End Theme.

(** ** Submit loading state: [setButtonLoadingState], [initLoadingButtons] *)

Module LoadingButtons.
Import Js Dom.

(** The elements below a form in document order, each with its depth (1
    for the form's children): the descendants of an element are the entries
    that follow it up to the first one that is not deeper. *)
Abbreviation outline := (list (nat * element)).

Definition loading_html (label : string) : string :=
  "<span class=" +:+ dq +:+ "btn-spinner" +:+ dq +:+ "></span><span class="
  +:+ dq +:+ "btn-label" +:+ dq +:+ ">" +:+ label +:+ "</span>".

(** The control carries the flag. *)
Definition bound (b : element) : Prop := dataset b "loadingBound" = Some "1".

(** What the statements of [setButtonLoadingState] make of the control
    itself: flagged, with the loading class, disabled, its content set from
    the spinner and label markup. *)
Definition loading (b : element) : element :=
  let b1 := set_dataset "loadingBound" "1" b in
  let label := or_default (dataset b1 "loadingText") "Збереження..." in
  let b2 := classList_add_reflected "btn-loading" b1 in
  let b3 := set_disabled_reflected true b2 in
  assign_innerHTML (loading_html label) b3.

(** The entries after the descendants of an element of depth [d]. *)
Fixpoint after_subtree (d : nat) (l : outline) : outline :=
  match l with
  | [] => []
  | (d', e) :: rest => if decide (d < d') then after_subtree d rest else l
  end.

Section WithParser.

(** The HTML fragment parser: the elements the markup gives, in document
    order, with their depth inside the fragment (0 at its top). *)
Variable parse : string → outline.

(** [button] is the position of the control in the form's outline, or
    [None] for [null].  Assigning [innerHTML] replaces the control's
    descendants by the elements parsed from the markup. *)
Definition setButtonLoadingState (button : option nat) (form : outline) : outline :=
  match button with
  | None => form
  | Some i =>
      match form !! i with
      | None => form
      | Some (d, b) =>
          if bool_decide (dataset b "loadingBound" = Some "1") then form
          else
            let b1 := set_dataset "loadingBound" "1" b in
            let label := or_default (dataset b1 "loadingText") "Збереження..." in
            let b2 := classList_add_reflected "btn-loading" b1 in
            let b3 := set_disabled_reflected true b2 in
            let html := loading_html label in
            take i form
            ++ (d, assign_innerHTML html b3)
               :: ((λ x, (S d + x.1, x.2)) <$> parse html)
            ++ after_subtree d (drop (S i) form)
      end
  end.

(** [button[type="submit"],input[type="submit"]]; the value of [type] is
    compared without regard to ASCII case. *)
Definition submit_selector (e : element) : bool :=
  has_tag ["BUTTON"; "INPUT"] e
  && match getAttribute e "type" with
     | Some t => bool_decide (toLowerCase t = "submit")
     | None => false
     end.

(** [form.querySelector]: position of the first matching descendant. *)
Definition querySelector (sel : element → bool) (form : outline) : option nat :=
  fst <$> list_find (λ x, Is_true (sel x.2)) form.

(** The form's submit listener. *)
Definition on_submit (form : outline) : outline :=
  match querySelector submit_selector form with
  | Some submit => setButtonLoadingState (Some submit) form
  | None => form
  end.

End WithParser.

End LoadingButtons.

(** ** Row-click navigation: [initRowClick] *)

Module RowClick.
Import Js Dom.

(** Assignments to [window.location.href], oldest first. *)
Record window := { navigations : list string }.

Definition navigate (url : string) (w : window) : window :=
  {| navigations := navigations w ++ [url] |}.

(** [a,button,input,select,textarea,label] *)
Definition interactive : element → bool :=
  has_tag ["A"; "BUTTON"; "INPUT"; "SELECT"; "TEXTAREA"; "LABEL"].

(** The listener of [row], for a click whose target is [target]. *)
Definition on_click (row : element) (target : node) (w : window) : window :=
  match closest interactive target with
  | Some _ => w
  | None =>
      match getAttribute row "data-row-link" with
      | Some href => if truthy href then navigate href w else w
      | None => w
      end
  end.

(** A click inside the row: the target is the row or one of its
    descendants, so the row is on the path from the target to the root. *)
Definition target_in (inner : list element) (row : element) (outer : list element)
  : node :=
  match inner with
  | [] => {| self := row; ancestors := outer |}
  | t :: between => {| self := t; ancestors := between ++ row :: outer |}
  end.

End RowClick.

(** ** Confirmation modal: [initConfirmModal] *)

Module ConfirmModal.
Import Js Dom.

Record state := {
  pendingAction : option node;
  modal_shown : bool;                   (* the bootstrap modal *)
  textContent : string;                 (* of #confirmActionBody *)
  navigations : list string;            (* assignments to location.href *)
  submissions : list (node * node);     (* requestSubmit: form, submitter *)
  defaultPrevented : bool;              (* of the event being handled *)
}.

Definition has_confirm (e : element) : bool :=
  bool_decide (is_Some (getAttribute e "data-confirm")).

Definition is_form : element → bool := has_tag ["FORM"].

(** The document's click listener. *)
Definition on_click (target : node) (s : state) : state :=
  match closest has_confirm target with
  | None => s
  | Some trigger =>
      {| pendingAction := Some trigger;
         modal_shown := true;
         textContent := or_default (dataset (self trigger) "confirm")
                          "Ви впевнені, що хочете продовжити?";
         navigations := navigations s;
         submissions := submissions s;
         defaultPrevented := true |}
  end.

Definition is_link (e : element) : bool :=
  bool_decide (tagName e = "A")
  && match href e with Some h => truthy h | None => false end.

Definition has_submit_type (e : element) : bool :=
  bool_decide (type e = Some "submit").

(** A submit button: a [button] in the submit state, or an [input] of type
    [submit] or [image]. *)
Definition submit_button (e : element) : bool :=
  (bool_decide (tagName e = "BUTTON") && bool_decide (type e = Some "submit"))
  || (bool_decide (tagName e = "INPUT")
      && bool_decide (type e = Some "submit" ∨ type e = Some "image")).

(** The form owner of a control inside [form] is [form], unless the control
    has a [form] attribute: then it is the element with that ID (IDs are
    unique in the document). *)
Definition owned_by (form : node) (e : element) : bool :=
  match getAttribute e "form" with
  | None => true
  | Some fid => truthy fid && bool_decide (getAttribute (self form) "id" = Some fid)
  end.

(** [form.requestSubmit(submitter)] throws a TypeError for a submitter that
    is not a submit button and a NotFoundError for one owned by another
    form; otherwise the submission is requested. *)
Definition requestSubmit (form submitter : node) (s : state)
  : state * completion unit :=
  if negb (submit_button (self submitter)) then (s, Throw TypeError)
  else if negb (owned_by form (self submitter)) then (s, Throw (Error "NotFoundError"))
  else
    ({| pendingAction := pendingAction s; modal_shown := modal_shown s;
        textContent := textContent s;
        navigations := navigations s;
        submissions := submissions s ++ [(form, submitter)];
        defaultPrevented := defaultPrevented s |}, Normal ()).

(** The accept button's click listener: the state it leaves and how it
    completes.  An exception thrown by [requestSubmit] ends the listener
    before the dialog is hidden and the trigger cleared. *)
Definition accept (s : state) : state * completion unit :=
  match pendingAction s with
  | None => (s, Normal ())
  | Some trigger =>
      let e := self trigger in
      let r :=
        if is_link e then
          ({| pendingAction := pendingAction s; modal_shown := modal_shown s;
              textContent := textContent s;
              navigations := navigations s ++ [to_template (href e)];
              submissions := submissions s;
              defaultPrevented := defaultPrevented s |}, Normal ())
        else if has_submit_type e then
          match closest is_form trigger with
          | Some form => requestSubmit form trigger s
          | None => (s, Normal ())
          end
        else (s, Normal ()) in
      match r with
      | (s1, Normal _) =>
          ({| pendingAction := None; modal_shown := false;
              textContent := textContent s1;
              navigations := navigations s1;
              submissions := submissions s1;
              defaultPrevented := defaultPrevented s1 |}, Normal ())
      | (s1, Throw e) => (s1, Throw e)
      end
  end.

(** The state the listener leaves. *)
Definition on_accept (s : state) : state := (accept s).1.

(** A submit control: a button or an input whose type is [submit]. *)
Definition submit_control (e : element) : bool :=
  has_tag ["BUTTON"; "INPUT"] e && has_submit_type e.

End ConfirmModal.

(** ** Keyboard shortcuts: [initShortcuts] *)

Module Shortcuts.
Import Js Dom.

Record document := {
  searchInput : option element;   (* #globalSearchInput *)
  elements : list element;        (* the elements of the page, in document order *)
}.

Record state := {
  activeElement : option element;
  navigations : list string;      (* assignments to location.href *)
  selected : bool;                (* [select()] was called on the search input *)
  defaultPrevented : bool;        (* of the event being handled *)
}.

(** [a[href*="/orders/create/"]] *)
Definition new_order_selector (e : element) : bool :=
  has_tag ["A"] e
  && match getAttribute e "href" with
     | Some h => includes "/orders/create/" h
     | None => false
     end.

Definition querySelector (sel : element → bool) (d : document) : option element :=
  snd <$> list_find (λ e, Is_true (sel e)) (elements d).

Definition typing (s : state) : bool :=
  match activeElement s with
  | Some e => has_tag ["INPUT"; "TEXTAREA"; "SELECT"] e
  | None => false
  end.

Definition preventDefault (s : state) : state :=
  {| activeElement := activeElement s; navigations := navigations s;
     selected := selected s; defaultPrevented := true |}.

Definition navigate (url : string) (s : state) : state :=
  {| activeElement := activeElement s; navigations := navigations s ++ [url];
     selected := selected s; defaultPrevented := defaultPrevented s |}.

(** [searchInput?.focus(); searchInput?.select();] *)
Definition focus_and_select (d : document) (s : state) : state :=
  match searchInput d with
  | Some i =>
      {| activeElement := Some i; navigations := navigations s;
         selected := true; defaultPrevented := defaultPrevented s |}
  | None => s
  end.

(** The document's keydown listener; [key] is [event.key]. *)
Definition on_keydown (d : document) (key : string) (s : state) : state :=
  if typing s && negb (bool_decide (toLowerCase key = "escape")) then s
  else
    let s1 :=
      if bool_decide (toLowerCase key = "n") then
        let s' := preventDefault s in
        match querySelector new_order_selector d with
        | Some newOrderLink => navigate (to_template (href newOrderLink)) s'
        | None => s'
        end
      else s in
    if bool_decide (toLowerCase key = "f") then
      focus_and_select d (preventDefault s1)
    else s1.

(** A shortcut action took place between [s] and [s']: a navigation was
    requested, or focus or selection moved to the search input. *)
Definition shortcut_acted (s s' : state) : Prop :=
  navigations s' ≠ navigations s
  ∨ activeElement s' ≠ activeElement s
  ∨ selected s' ≠ selected s.

End Shortcuts.

(** ** Global search: [renderSearchResults], [initGlobalSearch] *)

Module Group.
Record t := { key : string; title : string }.
End Group.

Module Search.
Import Js.

(** An entry of the JSON response; [meta] may be missing. *)
Record item := { url : string; title : string; meta : option string }.

(** The results panel, #globalSearchResults. *)
Record panel := { hidden : bool; innerHTML : string }.

Definition groups : list Group.t :=
  [ {| Group.key := "orders"; Group.title := "Замовлення" |};
    {| Group.key := "customers"; Group.title := "Клієнти" |};
    {| Group.key := "products"; Group.title := "Товари" |} ].

Definition group_open (title : string) : string :=
  "<section class=" +:+ dq +:+ "global-search-group" +:+ dq +:+ "><div class="
  +:+ dq +:+ "global-search-group-title" +:+ dq +:+ ">" +:+ title +:+ "</div>".

(** The anchor written for one result: [href], title span, meta span. *)
Definition link_row (href title meta_text : string) : string :=
  "<a class=" +:+ dq +:+ "global-search-item" +:+ dq +:+ " href=" +:+ dq
  +:+ href +:+ dq +:+ "><span>" +:+ title +:+ "</span><span class=" +:+ dq
  +:+ "global-search-meta" +:+ dq +:+ ">" +:+ meta_text +:+ "</span></a>".

Definition empty_html : string :=
  "<div class=" +:+ dq +:+ "global-search-empty" +:+ dq
  +:+ ">Нічого не знайдено</div>".

Definition error_html : string :=
  "<div class=" +:+ dq +:+ "global-search-empty" +:+ dq
  +:+ ">Помилка пошуку</div>".

(** The body of [groups.forEach]: [html] is the accumulator the source
    appends to. *)
Definition render_group (payload : gmap string (list item))
    (html : string) (group : Group.t) : string :=
  let items := default [] (payload !! Group.key group) in
  if bool_decide (length items = 0) then html
  else
    let html1 := html +:+ group_open (Group.title group) in
    let html2 :=
      foldl (λ h it, h +:+ link_row (url it) (title it) (or_default (meta it) ""))
        html1 items in
    html2 +:+ "</section>".

Definition renderSearchResults (container : panel)
    (payload : gmap string (list item)) : panel :=
  let html := foldl (render_group payload) "" groups in
  {| hidden := false;
     innerHTML := if truthy html then html else empty_html |}.

(** *** The response as [response.json()] delivers it

    [null], or an object whose fields hold arrays whose entries are [null] or
    objects.  Reading a property of [null] throws a TypeError. *)
Abbreviation raw_payload := (option (gmap string (list (option item)))).

Definition render_item_raw (html : string) (entry : option item) : completion string :=
  match entry with
  | None => Throw TypeError
  | Some it =>
      Normal (html +:+ link_row (url it) (title it) (or_default (meta it) ""))
  end.

Definition render_group_raw (fields : gmap string (list (option item)))
    (acc : completion string) (group : Group.t) : completion string :=
  bind acc (λ html,
    let items := default [] (fields !! Group.key group) in
    if bool_decide (length items = 0) then Normal html
    else
      bind (foldl (λ a entry, bind a (λ h, render_item_raw h entry))
              (Normal (html +:+ group_open (Group.title group))) items)
        (λ h, Normal (h +:+ "</section>"))).

Definition renderSearchResults_raw (container : panel) (payload : raw_payload)
  : completion panel :=
  match payload with
  | None => Throw TypeError
  | Some fields =>
      bind (foldl (render_group_raw fields) (Normal "") groups) (λ html,
        Normal {| hidden := false;
                  innerHTML := if truthy html then html else empty_html |})
  end.

(** A response without [null]s. *)
Definition without_nulls (payload : gmap string (list item)) : raw_payload :=
  Some ((λ items : list item, Some <$> items) <$> payload).

(** *** The input listener and its timer *)

(** A timeout registered with the browser: its id, the time at which it is
    due and the query its callback closes over. *)
Record timeout := { id : nat; due : nat; query : domstring }.

Record state := {
  results : panel;
  timer : option nat;          (* the [timer] variable: null or a timeout id *)
  timeouts : list timeout;     (* timeouts not yet run or cleared *)
  next_id : nat;
  now : nat;                   (* milliseconds *)
  fetched : list string;       (* URLs passed to [fetch], oldest first *)
}.

Definition set_results (p : panel) (s : state) : state :=
  {| results := p; timer := timer s; timeouts := timeouts s;
     next_id := next_id s; now := now s; fetched := fetched s |}.

Definition clearTimeout (t : option nat) (s : state) : state :=
  {| results := results s; timer := timer s;
     timeouts := filter (λ e, Some (id e) ≠ t) (timeouts s);
     next_id := next_id s; now := now s; fetched := fetched s |}.

(** [timer = setTimeout(callback, delay)] *)
Definition setTimeout (q : domstring) (delay : nat) (s : state) : state :=
  {| results := results s; timer := Some (next_id s);
     timeouts := timeouts s ++ [ {| id := next_id s; due := now s + delay; query := q |} ];
     next_id := S (next_id s); now := now s; fetched := fetched s |}.

(** The input listener; [value] is [input.value]. *)
Definition on_input (value : domstring) (s : state) : state :=
  let query := trim value in
  let s1 := clearTimeout (timer s) s in
  if bool_decide (length query < 2) then
    set_results {| hidden := true; innerHTML := "" |} s1
  else setTimeout query 180 s1.

Definition fetch (u : string) (s : state) : state :=
  {| results := results s; timer := timer s; timeouts := timeouts s;
     next_id := next_id s; now := now s; fetched := fetched s ++ [u] |}.

(** The [catch] block. *)
Definition show_error (s : state) : state :=
  set_results {| hidden := false; innerHTML := error_html |} s.

(** The timer callback up to the point where it awaits the response.
    [endpoint] is [form.dataset.searchEndpoint]. *)
Definition callback_start (endpoint : option string) (q : domstring) (s : state)
  : completion state :=
  try_catch
    (bind (encodeURIComponent q) (λ enc,
       Normal (fetch (to_template endpoint +:+ "?q=" +:+ enc) s)))
    (λ _, Normal (show_error s)).

(** How the awaited request settles: the promise rejects, or a response
    arrives whose [json()] yields a payload or rejects. *)
Inductive outcome :=
| Rejected
| Response (ok : bool) (json : option (gmap string (list item))).

(** The [try] block from the parsed body of an OK response on, and the
    [catch]. *)
Definition show_response (payload : raw_payload) (s : state) : completion state :=
  try_catch
    (bind (renderSearchResults_raw (results s) payload) (λ p,
       Normal (set_results p s)))
    (λ _, Normal (show_error s)).

(** The rest of the callback, run when the request has settled. *)
Definition callback_resume (o : outcome) (s : state) : completion state :=
  try_catch
    (match o with
     | Rejected => Throw TypeError
     | Response ok json =>
         if negb ok then Throw (Error "search")
         else match json with
              | None => Throw SyntaxError
              | Some payload =>
                  Normal (set_results (renderSearchResults (results s) payload) s)
              end
     end)
    (λ _, Normal (show_error s)).

(** Run by the event loop: an abrupt completion of the async callback
    would only reject its promise and leave the state as it is. *)
Definition run_callback (endpoint : option string) (s : state) (t : timeout)
  : state :=
  match callback_start endpoint (query t) s with
  | Normal s' => s'
  | Throw _ => s
  end.

(** [d] milliseconds pass: the timeouts that have become due run, in the
    order in which they were registered. *)
Definition elapse (endpoint : option string) (d : nat) (s : state) : state :=
  let t := now s + d in
  let ready := filter (λ e, due e ≤ t) (timeouts s) in
  let waiting := filter (λ e, ¬ due e ≤ t) (timeouts s) in
  foldl (run_callback endpoint)
    {| results := results s; timer := timer s; timeouts := waiting;
       next_id := next_id s; now := t; fetched := fetched s |}
    ready.

(** The state after [initGlobalSearch]. *)
Definition initial (p : panel) : state :=
  {| results := p; timer := None; timeouts := []; next_id := 1; now := 0;
     fetched := [] |}.

(** A burst of input: each further input event arrives [gap] milliseconds
    after the previous one. *)
Definition burst_step (endpoint : option string) (s : state)
    (e : nat * domstring) : state :=
  on_input e.2 (elapse endpoint e.1 s).

Definition burst (endpoint : option string) (first : domstring)
    (more : list (nat * domstring)) (s : state) : state :=
  foldl (burst_step endpoint) (on_input first s) more.

Definition last_value (first : domstring) (more : list (nat * domstring))
  : domstring :=
  default first (last (first :: (snd <$> more))).

(** Every pending timeout is the one the [timer] variable names, there is
    at most one, and it is not yet due. *)
Definition debounced (s : state) : Prop :=
  length (timeouts s) ≤ 1
  ∧ Forall (λ e, timer s = Some (id e) ∧ now s < due e) (timeouts s).

(** What can happen to the component: an input event, time passing, and
    an awaited request settling. *)
Inductive event :=
| Input (value : domstring)
| Elapse (d : nat)
| Settle (o : outcome).

Definition handle (endpoint : option string) (s : state) (ev : event) : state :=
  match ev with
  | Input value => on_input value s
  | Elapse d => elapse endpoint d s
  | Settle o => match callback_resume o s with
                | Normal s' => s'
                | Throw _ => s
                end
  end.

(** The input events of a sequence whose trimmed query has at least two
    code units. *)
Fixpoint long_inputs (evs : list event) : nat :=
  match evs with
  | [] => 0
  | Input value :: rest =>
      (if bool_decide (2 ≤ length (trim value)) then 1 else 0) + long_inputs rest
  | _ :: rest => long_inputs rest
  end.

(** What the last input event left behind: nothing pending after a short
    query, one timeout for the query, due 180 ms later, after a longer one. *)
Definition armed (value : domstring) (s : state) : Prop :=
  if bool_decide (length (trim value) < 2) then
    timeouts s = [] ∧ results s = {| hidden := true; innerHTML := "" |}
  else
    ∃ i, timeouts s = [ {| id := i; due := now s + 180; query := trim value |} ]
         ∧ timer s = Some i.

(** *** The rendering, as the response contract words it *)

(** A group header followed by one link row per item. *)
Definition section_html (heading : string) (items : list item) : string :=
  group_open heading
  +:+ foldr (λ it rest,
               link_row (url it) (title it) (default "" (meta it)) +:+ rest)
        "</section>" items.

Definition group_html (heading : string) (items : option (list item)) : string :=
  match items with
  | Some (it :: its) => section_html heading (it :: its)
  | _ => ""
  end.

Definition absent_or_empty (items : option (list item)) : Prop :=
  items = None ∨ items = Some [].

End Search.


(** *** Hiding the panel: the document's click and keydown listeners *)

Module SearchPanel.
Import Js Search.

(** The search component together with the focus of its input. *)
Record ui := { core : state; input_focused : bool }.

Definition hide (s : state) : state :=
  set_results {| hidden := true; innerHTML := innerHTML (results s) |} s.

(** [inside] is [form.contains(event.target)]. *)
Definition on_click (inside : bool) (u : ui) : ui :=
  if negb inside then {| core := hide (core u); input_focused := input_focused u |}
  else u.

Definition on_keydown (key : string) (u : ui) : ui :=
  if bool_decide (key = "Escape")
  then {| core := hide (core u); input_focused := false |}
  else u.

End SearchPanel.

(** ** Sidebar: [initSidebar] *)

Module Sidebar.
Import Dom.

Record page := {
  sidebar : option element;          (* #sidebar *)
  sidebarToggle : option element;    (* #sidebarToggle *)
  sidebarBackdrop : option element;  (* #sidebarBackdrop *)
  listening : bool;                  (* [initSidebar] attached its listeners *)
}.

Definition close (p : page) : page :=
  {| sidebar := classList_remove "is-open" <$> sidebar p;
     sidebarToggle := sidebarToggle p;
     sidebarBackdrop := classList_remove "is-open" <$> sidebarBackdrop p;
     listening := listening p |}.

Definition open (p : page) : page :=
  {| sidebar := classList_add "is-open" <$> sidebar p;
     sidebarToggle := sidebarToggle p;
     sidebarBackdrop := classList_add "is-open" <$> sidebarBackdrop p;
     listening := listening p |}.

(** Without the panel or the backdrop nothing is attached. *)
Definition initSidebar (p : page) : page :=
  match sidebar p, sidebarBackdrop p with
  | Some _, Some _ =>
      {| sidebar := sidebar p; sidebarToggle := sidebarToggle p;
         sidebarBackdrop := sidebarBackdrop p; listening := true |}
  | _, _ => p
  end.

Inductive event :=
| ClickToggle
| ClickBackdrop
| Keydown (key : string).

Definition handle (p : page) (ev : event) : page :=
  if listening p then
    match ev with
    | ClickToggle => if bool_decide (is_Some (sidebarToggle p)) then open p else p
    | ClickBackdrop => close p
    | Keydown key => if bool_decide (key = "Escape") then close p else p
    end
  else p.

Definition run (evs : list event) (p : page) : page := foldl handle p evs.

(** The class [c] is on the element, if there is one. *)
Definition shows (c : string) (e : option element) : Prop :=
  match e with Some x => has_class c x | None => False end.

(** The panel and the backdrop are both open or both closed. *)
Definition in_step (p : page) : Prop :=
  shows "is-open" (sidebar p) ↔ shows "is-open" (sidebarBackdrop p).

(** The event reaches a listener that opens or closes. *)
Definition acts (p : page) (ev : event) : Prop :=
  match ev with
  | ClickToggle => is_Some (sidebarToggle p)
  | ClickBackdrop => True
  | Keydown key => key = "Escape"
  end.

(** The page has the panel and the backdrop, and the listeners are on. *)
Definition ready (p : page) : Prop :=
  is_Some (sidebar p) ∧ is_Some (sidebarBackdrop p) ∧ listening p = true.

(** Neither the panel nor the backdrop is marked open. *)
Definition closed (p : page) : Prop :=
  ¬ shows "is-open" (sidebar p) ∧ ¬ shows "is-open" (sidebarBackdrop p).

End Sidebar.

(** ** Toasts: [hideToast], [initToasts] *)

Module Toasts.

Record toast := {
  opacity : string;        (* style.opacity *)
  transform : string;      (* style.transform *)
  removed : bool;          (* [remove()] took it out of the document *)
  closeBtn : bool;         (* it has a [.toast-close] descendant *)
  close_bound : bool;      (* the close button has its click listener *)
}.

(** What a timeout does when it runs, for the toast at index [i]. *)
Inductive action := Hide (i : nat) | Remove (i : nat).

Record timer := { due : nat; act : action }.

Record state := {
  toasts : list toast;     (* the [.toast-item] elements, in document order *)
  timers : list timer;     (* timeouts not yet run *)
  now : nat;               (* milliseconds *)
}.

Definition fade (t : toast) : toast :=
  {| opacity := "0"; transform := "translateX(10px)"; removed := removed t;
     closeBtn := closeBtn t; close_bound := close_bound t |}.

Definition detach (t : toast) : toast :=
  {| opacity := opacity t; transform := transform t; removed := true;
     closeBtn := closeBtn t; close_bound := close_bound t |}.

Definition setTimeout (a : action) (delay : nat) (s : state) : state :=
  {| toasts := toasts s; timers := timers s ++ [ {| due := now s + delay; act := a |} ];
     now := now s |}.

Definition update (i : nat) (f : toast → toast) (s : state) : state :=
  {| toasts := alter f i (toasts s); timers := timers s; now := now s |}.

Definition hideToast (i : nat) (s : state) : state :=
  setTimeout (Remove i) 200 (update i fade s).

(** The body of [forEach] for the toast at index [i]. *)
Definition init_toast (s : state) (i : nat) : state :=
  setTimeout (Hide i) 4500
    (update i (λ t, {| opacity := opacity t; transform := transform t;
                       removed := removed t; closeBtn := closeBtn t;
                       close_bound := closeBtn t |}) s).

Definition initToasts (s : state) : state :=
  foldl init_toast s (seq 0 (length (toasts s))).

Definition fire (s : state) (t : timer) : state :=
  match act t with
  | Hide i => hideToast i s
  | Remove i => update i detach s
  end.

(** One millisecond passes; the timeouts that have become due run in the
    order in which they were registered. *)
Definition tick (s : state) : state :=
  let t := S (now s) in
  foldl fire
    {| toasts := toasts s; timers := filter (λ e, ¬ due e ≤ t) (timers s); now := t |}
    (filter (λ e, due e ≤ t) (timers s)).

(** A click on the close button of toast [i]. *)
Definition click_close (i : nat) (s : state) : state :=
  match toasts s !! i with
  | Some t => if close_bound t then hideToast i s else s
  | None => s
  end.

Inductive event := Tick | Close (i : nat).

Definition handle (s : state) (ev : event) : state :=
  match ev with
  | Tick => tick s
  | Close i => click_close i s
  end.

Definition run (evs : list event) (s : state) : state := foldl handle s evs.

(** The page as it is served: toasts visible, no timeout, time zero. *)
Definition served (close_buttons : list bool) : state :=
  {| toasts := (λ c, {| opacity := ""; transform := ""; removed := false;
                        closeBtn := c; close_bound := false |}) <$> close_buttons;
     timers := []; now := 0 |}.

Definition faded (t : toast) : Prop := opacity t = "0".

Definition targets (i : nat) (a : action) : Prop :=
  match a with Hide j => j = i | Remove j => j = i end.

(** Toast [i] is out of the document, or a timeout that takes it out is
    pending and due by [deadline]: its removal directly, or its fading 200 ms
    ahead of that. *)
Definition removal_due (deadline : nat) (i : nat) (s : state) : Prop :=
  (∃ t, toasts s !! i = Some t ∧ removed t = true)
  ∨ (∃ e, e ∈ timers s ∧ act e = Remove i ∧ due e ≤ deadline)
  ∨ (∃ e, e ∈ timers s ∧ act e = Hide i ∧ due e + 200 ≤ deadline).

(** Every pending timeout lies in the future. *)
Definition timers_ahead (s : state) : Prop :=
  Forall (λ e, now s < due e) (timers s).

(** Toast [i] keeps to the timetable of a toast nobody closes: it is not
    faded before 4500 ms nor out of the document before 4700 ms, and no
    timeout would do either earlier. *)
Definition on_schedule (i : nat) (s : state) : Prop :=
  (∀ x, toasts s !! i = Some x →
        (removed x = true → 4700 ≤ now s) ∧ (opacity x ≠ "" → 4500 ≤ now s))
  ∧ Forall (λ e, (act e = Hide i → 4500 ≤ due e) ∧ (act e = Remove i → 4700 ≤ due e))
      (timers s).

(** The milliseconds that pass in a sequence of events. *)
Fixpoint elapsed (evs : list event) : nat :=
  match evs with
  | [] => 0
  | Tick :: rest => S (elapsed rest)
  | Close _ :: rest => elapsed rest
  end.

End Toasts.

(** ** Copy to clipboard: [initCopyButtons] *)

Module CopyButtons.
Import Js Dom.

(** An element carrying [data-copy] and the first [i] element inside it. *)
Record widget := { button : element; icon : option element }.

(** What the browser offers: [navigator.clipboard.writeText], whose promise
    resolves or rejects, or only [document.execCommand('copy')], which
    reports whether it copied. *)
Inductive clipboard_api :=
| AsyncClipboard (resolves : bool)
| Legacy (copied : bool).

Record state := {
  clipboard : string;            (* the system clipboard *)
  body : list string;            (* values of the textareas appended to [body] *)
  widgets : list widget;
  timers : list (nat * nat);     (* pending reverts: due time, widget index *)
  now : nat;                     (* milliseconds *)
  defaultPrevented : bool;       (* of the event being handled *)
}.

Definition set_clipboard (text : string) (s : state) : state :=
  {| clipboard := text; body := body s; widgets := widgets s; timers := timers s;
     now := now s; defaultPrevented := defaultPrevented s |}.

Definition set_body (b : list string) (s : state) : state :=
  {| clipboard := clipboard s; body := b; widgets := widgets s; timers := timers s;
     now := now s; defaultPrevented := defaultPrevented s |}.

(** [copyText]: the value it resolves to, or the reason it rejects with. *)
Definition copyText (api : clipboard_api) (text : option string) (s : state)
  : state * completion bool :=
  match text with
  | None => (s, Normal false)
  | Some t =>
      if negb (truthy t) then (s, Normal false)
      else
        match api with
        | AsyncClipboard true => (set_clipboard t s, Normal true)
        | AsyncClipboard false => (s, Throw (Error "NotAllowedError"))
        | Legacy ok =>
            let s1 := set_body (body s ++ [t]) s in          (* appendChild *)
            let s2 := if ok then set_clipboard t s1 else s1 in  (* select, copy *)
            (set_body (take (length (body s)) (body s2)) s2, Normal ok)  (* removeChild *)
        end
  end.

(** The classes while the copy is being confirmed. *)
Definition mark (w : widget) : widget :=
  {| button := classList_add "is-copied" (button w);
     icon := (λ i, classList_add "bi-check2" (classList_remove "bi-clipboard" i))
             <$> icon w |}.

(** The timeout's callback. *)
Definition revert (w : widget) : widget :=
  {| button := classList_remove "is-copied" (button w);
     icon := (λ i, classList_add "bi-clipboard" (classList_remove "bi-check2" i))
             <$> icon w |}.

Definition update (i : nat) (f : widget → widget) (s : state) : state :=
  {| clipboard := clipboard s; body := body s; widgets := alter f i (widgets s);
     timers := timers s; now := now s; defaultPrevented := defaultPrevented s |}.

Definition setTimeout (i : nat) (delay : nat) (s : state) : state :=
  {| clipboard := clipboard s; body := body s; widgets := widgets s;
     timers := timers s ++ [(now s + delay, i)];
     now := now s; defaultPrevented := defaultPrevented s |}.

Definition preventDefault (s : state) : state :=
  {| clipboard := clipboard s; body := body s; widgets := widgets s;
     timers := timers s; now := now s; defaultPrevented := true |}.

(** The document's click listener.  [hit] is the widget found by
    [event.target.closest('[data-copy]')], if any; the result is the state
    the listener leaves and how its promise settles. *)
Definition on_click (api : clipboard_api) (hit : option nat) (s : state)
  : state * completion unit :=
  match hit with
  | None => (s, Normal ())
  | Some i =>
      match widgets s !! i with
      | None => (s, Normal ())
      | Some w =>
          let s1 := preventDefault s in
          match copyText api (dataset (button w) "copy") s1 with
          | (s2, Throw e) => (s2, Throw e)
          | (s2, Normal false) => (s2, Normal ())
          | (s2, Normal true) => (setTimeout i 1400 (update i mark s2), Normal ())
          end
      end
  end.

(** One millisecond passes; the reverts that have become due run. *)
Definition tick (s : state) : state :=
  let t := S (now s) in
  foldl (λ q e, update e.2 revert q)
    {| clipboard := clipboard s; body := body s; widgets := widgets s;
       timers := filter (λ e, ¬ e.1 ≤ t) (timers s);
       now := t; defaultPrevented := defaultPrevented s |}
    (filter (λ e, e.1 ≤ t) (timers s)).

Definition elapse (d : nat) (s : state) : state := Nat.iter d tick s.

(** The widget shows that something was copied. *)
Definition confirming (w : widget) : Prop :=
  has_class "is-copied" (button w)
  ∨ ∃ i, icon w = Some i ∧ has_class "bi-check2" i.

End CopyButtons.

(** ** Custom date range: [initCustomDateRange] *)

Module DateRange.

Record page := {
  dateRangePreset : option string;   (* value of the select, if present *)
  customRange : option string;       (* style.display of the group, if present *)
  listening : bool;                  (* the change listener is attached *)
}.

Definition sync (p : page) : page :=
  {| dateRangePreset := dateRangePreset p;
     customRange :=
       match customRange p with
       | Some _ => Some (if bool_decide (dateRangePreset p = Some "custom")
                         then "flex" else "none")
       | None => None
       end;
     listening := listening p |}.

Definition initCustomDateRange (p : page) : page :=
  match dateRangePreset p, customRange p with
  | Some _, Some _ =>
      sync {| dateRangePreset := dateRangePreset p; customRange := customRange p;
              listening := true |}
  | _, _ => p
  end.

(** The user picks the option with value [v]; the change event follows. *)
Definition change (v : string) (p : page) : page :=
  match dateRangePreset p with
  | Some _ =>
      let p' := {| dateRangePreset := Some v; customRange := customRange p;
                   listening := listening p |} in
      if listening p then sync p' else p'
  | None => p
  end.

Definition changes (vs : list string) (p : page) : page :=
  foldl (λ q v, change v q) p vs.

(** What the group's display has to be for the value [v] of the select. *)
Definition display_for (v : string) : string :=
  if bool_decide (v = "custom") then "flex" else "none".

End DateRange.

(** ** Concrete pages and inputs used by the examples below *)

Module Samples.
Import Dom.

Definition plain (tag : string) : element :=
  {| tagName := tag; attributes := ∅; classList := []; disabled := false;
     innerHTML := ""; href := None; type := None |}.

(** A page whose storage holds a theme name this script never writes. *)
Definition foreign_page : Theme.page :=
  {| Theme.localStorage := {[ "crm_theme" := "blue" ]};
     Theme.root_attributes := ∅;
     Theme.themeToggle := Some "";
     Theme.toggle_bound := false |}.

(** A first visit: nothing stored yet. *)
Definition fresh_page : Theme.page :=
  {| Theme.localStorage := ∅;
     Theme.root_attributes := ∅;
     Theme.themeToggle := Some "";
     Theme.toggle_bound := false |}.

Definition save_button : element :=
  {| tagName := "BUTTON";
     attributes := {[ "type" := "submit"; "data-loading-text" := "Saving" ]};
     classList := ["btn"]; disabled := false; innerHTML := "Save";
     href := None; type := Some "submit" |}.

(** The icon and the text span inside the save button. *)
Definition save_icon : element :=
  {| tagName := "I"; attributes := {[ "class" := "bi bi-save" ]};
     classList := ["bi"; "bi-save"]; disabled := false; innerHTML := "";
     href := None; type := None |}.

(** A form: a wrapper with a text input, then the save button with two
    children, then a second button. *)
Definition order_form : list (nat * element) :=
  [ (1, plain "DIV"); (2, plain "INPUT"); (1, save_button); (2, save_icon);
    (2, plain "SPAN"); (1, plain "BUTTON") ].

(** What the fragment parser makes of the loading markup with a plain
    label: the spinner span and the label span. *)
Definition spinner_span : element :=
  {| tagName := "SPAN"; attributes := {[ "class" := "btn-spinner" ]};
     classList := ["btn-spinner"]; disabled := false; innerHTML := "";
     href := None; type := None |}.

Definition label_span (label : string) : element :=
  {| tagName := "SPAN"; attributes := {[ "class" := "btn-label" ]};
     classList := ["btn-label"]; disabled := false; innerHTML := label;
     href := None; type := None |}.

Definition parse_plain (label : string) (markup : string) : list (nat * element) :=
  [ (0, spinner_span); (0, label_span label) ].



(** A table row with an empty [data-row-link], clicked on one of its
    cells. *)
Definition unlinked_row : element :=
  {| tagName := "TR"; attributes := {[ "data-row-link" := "" ]};
     classList := []; disabled := false; innerHTML := "";
     href := None; type := None |}.

Definition order_row : element :=
  {| tagName := "TR"; attributes := {[ "data-row-link" := "/orders/7/" ]};
     classList := []; disabled := false; innerHTML := "";
     href := None; type := None |}.

Definition table_path : list element :=
  [ plain "TBODY"; plain "TABLE"; plain "BODY"; plain "HTML" ].

(** A delete button inside a form, marked for confirmation. *)
Definition delete_button : element :=
  {| tagName := "BUTTON";
     attributes := {[ "type" := "submit"; "data-confirm" := "Delete?" ]};
     classList := []; disabled := false; innerHTML := "Delete";
     href := None; type := Some "submit" |}.

Definition delete_trigger : node :=
  {| self := delete_button;
     ancestors := [ plain "FORM"; plain "BODY"; plain "HTML" ] |}.






Definition confirming : ConfirmModal.state :=
  {| ConfirmModal.pendingAction := Some delete_trigger;
     ConfirmModal.modal_shown := true;
     ConfirmModal.textContent := "Delete?";
     ConfirmModal.navigations := [];
     ConfirmModal.submissions := [];
     ConfirmModal.defaultPrevented := true |}.

(** Focus is in a text field of a page that has the search input and a
    link to the order form. *)
Definition order_link : element :=
  {| tagName := "A"; attributes := {[ "href" := "/orders/create/" ]};
     classList := []; disabled := false; innerHTML := "";
     href := Some "https://crm.example/orders/create/"; type := Some "" |}.

Definition shortcut_page : Shortcuts.document :=
  {| Shortcuts.searchInput := Some (plain "INPUT");
     Shortcuts.elements := [ plain "DIV"; order_link ] |}.

Definition in_textarea : Shortcuts.state :=
  {| Shortcuts.activeElement := Some (plain "TEXTAREA");
     Shortcuts.navigations := [];
     Shortcuts.selected := false;
     Shortcuts.defaultPrevented := false |}.

(** The search component right after the page has loaded. *)
Definition idle_search : Search.state :=
  Search.initial {| Search.hidden := true; Search.innerHTML := "" |}.

(** Two unpaired lead surrogates. *)
Definition lone_surrogates : Js.domstring := [0xD800; 0xD800]%N.

(** The code units of [ab], [abc] and of a single space. *)
Definition ab : Js.domstring := [0x61; 0x62]%N.
Definition abc : Js.domstring := [0x61; 0x62; 0x63]%N.
Definition blank : Js.domstring := [0x20]%N.

(** A row that is itself a link, and a click on a cell of a row inside a
    label. *)
Definition label_path : list element :=
  [ plain "TBODY"; plain "TABLE"; plain "LABEL"; plain "BODY"; plain "HTML" ].

(** A link marked for confirmation, clicked on the icon inside it. *)
Definition delete_link : element :=
  {| tagName := "A";
     attributes := {[ "href" := "/orders/7/delete/"; "data-confirm" := "" ]};
     classList := []; disabled := false; innerHTML := "";
     href := Some "https://crm.example/orders/7/delete/"; type := Some "" |}.

Definition icon_in_delete_link : node :=
  {| self := plain "I"; ancestors := [ delete_link; plain "TD"; order_row ] |}.

Definition idle_modal : ConfirmModal.state :=
  {| ConfirmModal.pendingAction := None;
     ConfirmModal.modal_shown := false;
     ConfirmModal.textContent := "";
     ConfirmModal.navigations := [];
     ConfirmModal.submissions := [];
     ConfirmModal.defaultPrevented := false |}.

Definition at_body : Shortcuts.state :=
  {| Shortcuts.activeElement := Some (plain "BODY");
     Shortcuts.navigations := [];
     Shortcuts.selected := false;
     Shortcuts.defaultPrevented := false |}.

(** A page with the sidebar, its toggle and its backdrop, all closed. *)
Definition panel_page : Sidebar.page :=
  {| Sidebar.sidebar := Some (plain "ASIDE");
     Sidebar.sidebarToggle := Some (plain "BUTTON");
     Sidebar.sidebarBackdrop := Some (plain "DIV");
     Sidebar.listening := false |}.

(** The same page without the backdrop. *)
Definition no_backdrop_page : Sidebar.page :=
  {| Sidebar.sidebar := Some (plain "ASIDE");
     Sidebar.sidebarToggle := Some (plain "BUTTON");
     Sidebar.sidebarBackdrop := None;
     Sidebar.listening := false |}.

(** A copy button with a clipboard icon, on a page where nothing has been
    copied yet. *)
Definition copy_widget : CopyButtons.widget :=
  {| CopyButtons.button :=
       {| tagName := "BUTTON"; attributes := {[ "data-copy" := "ABC" ]};
          classList := ["btn"]; disabled := false; innerHTML := "";
          href := None; type := Some "submit" |};
     CopyButtons.icon :=
       Some {| tagName := "I"; attributes := ∅; classList := ["bi"; "bi-clipboard"];
               disabled := false; innerHTML := ""; href := None; type := None |} |}.

(** A copy button whose payload is empty. *)
Definition empty_copy_widget : CopyButtons.widget :=
  {| CopyButtons.button :=
       {| tagName := "BUTTON"; attributes := {[ "data-copy" := "" ]};
          classList := ["btn"]; disabled := false; innerHTML := "";
          href := None; type := Some "submit" |};
     CopyButtons.icon := None |}.

Definition copy_page : CopyButtons.state :=
  {| CopyButtons.clipboard := "old"; CopyButtons.body := [];
     CopyButtons.widgets := [copy_widget; empty_copy_widget];
     CopyButtons.timers := []; CopyButtons.now := 0;
     CopyButtons.defaultPrevented := false |}.

(** A report form with the preset on [week] and the custom range shown. *)
Definition report_page : DateRange.page :=
  {| DateRange.dateRangePreset := Some "week";
     DateRange.customRange := Some "";
     DateRange.listening := false |}.

(** A response with one order and two products, the second with a meta
    text. *)
Definition found : gmap string (list Search.item) :=
  {[ "orders" := [ {| Search.url := "/o/1"; Search.title := "Order 1";
                      Search.meta := None |} ];
     "products" := [ {| Search.url := "/p/1"; Search.title := "Tea";
                        Search.meta := None |};
                     {| Search.url := "/p/2"; Search.title := "Cup";
                        Search.meta := Some "12 pcs" |} ] ]}.

End Samples.

(** * Properties *)

(** ** Strings *)

Lemma app_assoc_s (a b c : string) : (a +:+ b) +:+ c = a +:+ (b +:+ c).
Proof.
  induction a as [|x a IH]; [done|].
  change (String x ((a +:+ b) +:+ c) = String x (a +:+ (b +:+ c))).
  by rewrite IH.
Qed.

Lemma app_empty_r (a : string) : a +:+ "" = a.
Proof.
  induction a as [|x a IH]; [done|].
  change (String x (a +:+ "") = String x a). by rewrite IH.
Qed.

Lemma truthy_app_l (a b : string) : Js.truthy a = true → Js.truthy (a +:+ b) = true.
Proof. by destruct a. Qed.

Lemma truthy_app_r (a b : string) : Js.truthy b = true → Js.truthy (a +:+ b) = true.
Proof. destruct a; [done|]. by intros _. Qed.

(** ** Theme manager *)

Section ThemeProperties.
Import Theme.

Lemma stored_setTheme t p : stored (setTheme t p) = Some t.
Proof. unfold stored, setTheme; simpl. apply lookup_insert_eq. Qed.

Lemma theme_attr_setTheme t p : theme_attr (setTheme t p) = Some t.
Proof. unfold theme_attr, setTheme; simpl. apply lookup_insert_eq. Qed.

Lemma stored_bind_toggle p : stored (bind_toggle p) = stored p.
Proof. done. Qed.

Lemma initTheme_unfold d p :
  initTheme d p = bind_toggle (setTheme (initial_theme d p) p).
Proof.
  unfold initTheme, initial_theme.
  destruct (localStorage p !! THEME_KEY) as [s|]; [|done].
  by destruct (Js.truthy s).
Qed.

Lemma initial_theme_clean d p :
  clean_store p → initial_theme d p = "light" ∨ initial_theme d p = "dark".
Proof.
  unfold initial_theme, clean_store, light_or_dark, stored.
  intros [-> | [-> | [-> | ->]]]; simpl; destruct d; auto.
Qed.

Lemma stored_toggle_listener p : light_or_dark (stored (toggle_listener p)).
Proof.
  unfold toggle_listener. rewrite stored_setTheme.
  case_bool_decide; [by left | by right].
Qed.

Lemma step_keeps_valid o p :
  light_or_dark (stored p) → light_or_dark (stored (step o p)).
Proof.
  intros Hp. destruct o as [d|]; simpl.
  - rewrite initTheme_unfold, stored_bind_toggle, stored_setTheme.
    unfold initial_theme. unfold stored in Hp.
    by destruct Hp as [-> | ->]; simpl; [left | right].
  - unfold click_toggle. destruct (toggle_bound p); [|done].
    apply stored_toggle_listener.
Qed.

Lemma run_keeps_valid ops p :
  light_or_dark (stored p) → light_or_dark (stored (run ops p)).
Proof.
  revert p. induction ops as [|o ops IH]; intros p Hp; [done|].
  apply IH, step_keeps_valid, Hp.
Qed.

(** The script's own writes keep the storage clean. *)
Lemma clean_store_run ops p : clean_store p → clean_store (run ops p).
Proof.
  revert p. induction ops as [|o ops IH]; intros p Hp; [done|].
  apply IH. destruct o as [d|]; simpl.
  - do 2 right. rewrite initTheme_unfold, stored_bind_toggle, stored_setTheme.
    destruct (initial_theme_clean d p Hp) as [-> | ->]; [by left | by right].
  - unfold click_toggle. destruct (toggle_bound p); [|done].
    do 2 right. apply stored_toggle_listener.
Qed.

Lemma setTheme_setTheme a b p : setTheme a (setTheme b p) = setTheme a p.
Proof.
  unfold setTheme. cbn [localStorage root_attributes themeToggle toggle_bound].
  rewrite !insert_insert_eq. by destruct (themeToggle p).
Qed.

Lemma setTheme_bind_toggle a b p :
  setTheme a (bind_toggle (setTheme b p)) = bind_toggle (setTheme a p).
Proof.
  unfold bind_toggle, setTheme.
  cbn [localStorage root_attributes themeToggle toggle_bound].
  rewrite !insert_insert_eq. by destruct (themeToggle p).
Qed.

Lemma toggle_bound_bind_setTheme t p :
  toggle_bound (bind_toggle (setTheme t p)) = bool_decide (is_Some (themeToggle p)).
Proof.
  unfold bind_toggle, setTheme. cbn [themeToggle toggle_bound].
  by destruct (themeToggle p).
Qed.

Lemma toggle_listener_bind_setTheme t p :
  toggle_listener (bind_toggle (setTheme t p))
  = bind_toggle (setTheme (if bool_decide (t = "dark") then "light" else "dark") p).
Proof.
  unfold toggle_listener.
  change (root_attributes (bind_toggle (setTheme t p)) !! "data-theme")
    with (theme_attr (setTheme t p)).
  rewrite theme_attr_setTheme, setTheme_bind_toggle.
  do 2 f_equal. repeat case_bool_decide; congruence.
Qed.

(** Two clicks after applying a theme that is light or dark. *)
Lemma toggle_twice_after_setTheme t p :
  t = "light" ∨ t = "dark" →
  let p1 := bind_toggle (setTheme t p) in
  click_toggle (click_toggle p1) = p1.
Proof.
  intros Ht p1. subst p1. unfold click_toggle.
  rewrite toggle_bound_bind_setTheme.
  case_bool_decide; [|by rewrite toggle_bound_bind_setTheme, bool_decide_false].
  rewrite toggle_listener_bind_setTheme, toggle_bound_bind_setTheme.
  rewrite bool_decide_true by done.
  rewrite toggle_listener_bind_setTheme.
  by destruct Ht as [-> | ->].
Qed.

(** C8, as claimed, fails: with the foreign name [blue] in the storage,
    initialization applies [blue], and two clicks end at [light]. *)
Lemma toggle_twice_foreign_theme :
  let p1 := initTheme false Samples.foreign_page in
  theme_attr p1 = Some "blue" ∧ stored p1 = Some "blue"
  ∧ theme_attr (click_toggle (click_toggle p1)) = Some "light"
  ∧ stored (click_toggle (click_toggle p1)) = Some "light"
  ∧ ¬ (theme_attr (click_toggle (click_toggle p1)) = theme_attr p1
       ∧ stored (click_toggle (click_toggle p1)) = stored p1).
Proof.
  assert (H1 : theme_attr (initTheme false Samples.foreign_page) = Some "blue")
    by (vm_compute; reflexivity).
  assert (H2 : theme_attr (click_toggle (click_toggle
                 (initTheme false Samples.foreign_page))) = Some "light")
    by (vm_compute; reflexivity).
  simpl. split_and!; try (vm_compute; reflexivity).
  intros [E _]. rewrite H1, H2 in E. discriminate E.
Qed.

(** C8 (amended): when the storage held nothing, an empty string, [light]
    or [dark] before initialization, two clicks on the toggle bring the
    page back to the state initialization produced: the root's
    [data-theme] attribute and the stored preference have their original
    values. *)
Theorem toggle_twice_restores (d : bool) (p : page) :
  clean_store p →
  let p1 := initTheme d p in
  click_toggle (click_toggle p1) = p1
  ∧ theme_attr (click_toggle (click_toggle p1)) = theme_attr p1
  ∧ stored (click_toggle (click_toggle p1)) = stored p1.
Proof.
  intros Hc p1.
  assert (E : click_toggle (click_toggle p1) = p1).
  { subst p1. rewrite initTheme_unfold.
    apply toggle_twice_after_setTheme, initial_theme_clean, Hc. }
  by rewrite E.
Qed.

Lemma toggle_twice_restores_witness :
  let p1 := initTheme true Samples.fresh_page in
  click_toggle (click_toggle p1) = p1
  ∧ theme_attr (click_toggle (click_toggle p1)) = theme_attr p1
  ∧ stored (click_toggle (click_toggle p1)) = stored p1.
Proof.
  apply (toggle_twice_restores true Samples.fresh_page).
  left. vm_compute. reflexivity.
Defined.

(** C9, as claimed, fails: initialization stores the foreign name again. *)
Lemma stored_foreign_theme_kept :
  localStorage (initTheme false Samples.foreign_page) !! "crm_theme" = Some "blue"
  ∧ localStorage (initTheme false Samples.foreign_page) !! "crm_theme" ≠ Some "light"
  ∧ localStorage (initTheme false Samples.foreign_page) !! "crm_theme" ≠ Some "dark"
  ∧ ¬ light_or_dark (stored (initTheme false Samples.foreign_page)).
Proof.
  assert (H : localStorage (initTheme false Samples.foreign_page) !! "crm_theme"
              = Some "blue") by (vm_compute; reflexivity).
  split_and!; [exact H | by rewrite H | by rewrite H |].
  unfold stored, THEME_KEY. rewrite H. intros [E | E]; discriminate E.
Qed.

(** C9 (amended): after every click on the theme toggle whose listener is
    attached, the value stored under [crm_theme] is [light] or [dark],
    whatever was stored before, and it stays so through every later theme
    operation; after initialization, and every operation that follows, it is
    [light] or [dark] when the value stored before was absent, empty, [light]
    or [dark]; any other non-empty stored value is kept by initialization as
    it is. *)
Theorem stored_theme_light_or_dark (p : page) :
  (toggle_bound p = true →
     (localStorage (click_toggle p) !! "crm_theme" = Some "light"
      ∨ localStorage (click_toggle p) !! "crm_theme" = Some "dark")
     ∧ ∀ ops, localStorage (run (Toggle :: ops) p) !! "crm_theme" = Some "light"
              ∨ localStorage (run (Toggle :: ops) p) !! "crm_theme" = Some "dark")
  ∧ (localStorage p !! "crm_theme" = None
     ∨ localStorage p !! "crm_theme" = Some ""
     ∨ localStorage p !! "crm_theme" = Some "light"
     ∨ localStorage p !! "crm_theme" = Some "dark" →
     ∀ d ops, localStorage (run (Init d :: ops) p) !! "crm_theme" = Some "light"
              ∨ localStorage (run (Init d :: ops) p) !! "crm_theme" = Some "dark")
  ∧ (∀ d saved, localStorage p !! "crm_theme" = Some saved → saved ≠ "" →
       localStorage (initTheme d p) !! "crm_theme" = Some saved).
Proof.
  split_and!.
  - intros Hb.
    assert (H : light_or_dark (stored (click_toggle p))).
    { unfold click_toggle. rewrite Hb. apply stored_toggle_listener. }
    split; [exact H|]. intros ops.
    change (run (Toggle :: ops) p) with (run ops (click_toggle p)).
    by apply (run_keeps_valid ops).
  - intros Hc d ops. change (run (Init d :: ops) p) with (run ops (initTheme d p)).
    apply (run_keeps_valid ops).
    rewrite initTheme_unfold, stored_bind_toggle, stored_setTheme.
    destruct (initial_theme_clean d p Hc) as [-> | ->]; [by left | by right].
  - intros d saved Hs Hne.
    change (stored (initTheme d p) = Some saved).
    rewrite initTheme_unfold, stored_bind_toggle, stored_setTheme.
    unfold initial_theme, THEME_KEY. rewrite Hs. by destruct saved.
Qed.

Lemma stored_theme_light_or_dark_witness :
  (localStorage (run [Toggle; Init true; Toggle]
                   (initTheme false Samples.foreign_page)) !! "crm_theme" = Some "light"
   ∨ localStorage (run [Toggle; Init true; Toggle]
                     (initTheme false Samples.foreign_page)) !! "crm_theme" = Some "dark")
  ∧ (localStorage (run [Init true; Toggle; Toggle; Init false; Toggle]
                     Samples.fresh_page) !! "crm_theme" = Some "light"
     ∨ localStorage (run [Init true; Toggle; Toggle; Init false; Toggle]
                       Samples.fresh_page) !! "crm_theme" = Some "dark")
  ∧ localStorage (initTheme true Samples.foreign_page) !! "crm_theme" = Some "blue".
Proof.
  split_and!.
  - destruct (stored_theme_light_or_dark (initTheme false Samples.foreign_page))
      as (H & _ & _).
    destruct (H eq_refl) as [_ H']. apply (H' [Init true; Toggle]).
  - destruct (stored_theme_light_or_dark Samples.fresh_page) as (_ & H & _).
    apply (H (or_introl eq_refl) true [Toggle; Toggle; Init false; Toggle]).
  - destruct (stored_theme_light_or_dark Samples.foreign_page) as (_ & _ & H).
    apply (H true "blue"); [reflexivity | discriminate].
Defined.

End ThemeProperties.

(** ** Submit loading state *)

Section LoadingProperties.
Import Dom LoadingButtons.
Variable parse : string → list (nat * element).





(** The attributes the transformation writes are the flag, [class] and
    [disabled]; the others are kept. *)
Lemma loading_attribute b a :
  a ≠ "data-loading-bound" → a ≠ "class" → a ≠ "disabled" →
  getAttribute (loading b) a = getAttribute b a.
Proof.
  intros H1 H2 H3.
  unfold loading, getAttribute, assign_innerHTML, set_disabled_reflected,
    classList_add_reflected, set_dataset, setAttribute.
  cbn [attributes set_innerHTML set_disabled classList_add].
  by rewrite !lookup_insert_ne.
Qed.



(** What [setButtonLoadingState] does to the outline. *)
Lemma setButtonLoadingState_fresh i d b (form : list (nat * element)) :
  form !! i = Some (d, b) → ¬ bound b →
  setButtonLoadingState parse (Some i) form
  = take i form
    ++ (d, loading b)
       :: ((λ x, (S d + x.1, x.2))
             <$> parse (loading_html
                          (Js.or_default (getAttribute b "data-loading-text")
                             "Збереження...")))
    ++ after_subtree d (drop (S i) form).
Proof.
  intros Hb Hn. unfold setButtonLoadingState. rewrite Hb.
  rewrite bool_decide_false by done.
  assert (E : dataset (set_dataset "loadingBound" "1" b) "loadingText"
              = getAttribute b "data-loading-text").
  { unfold dataset, set_dataset, setAttribute, getAttribute. cbn [attributes].
    by rewrite lookup_insert_ne. }
  unfold loading. by rewrite E.
Qed.

Lemma setButtonLoadingState_bound i d b (form : list (nat * element)) :
  form !! i = Some (d, b) → bound b →
  setButtonLoadingState parse (Some i) form = form.
Proof.
  intros Hb Hn. unfold setButtonLoadingState. rewrite Hb.
  by rewrite bool_decide_true.
Qed.





Lemma on_submit_selected (form : list (nat * element)) i :
  querySelector submit_selector form = Some i →
  on_submit parse form = setButtonLoadingState parse (Some i) form.
Proof. intros H. unfold on_submit. by rewrite H. Qed.





End LoadingProperties.


(** ** Row-click navigation *)

Section RowClickProperties.
Import Dom RowClick.

(** [closest] finds something exactly when the element or one of its
    ancestors matches. *)
Lemma closest_from_is_Some sel e ups :
  is_Some (closest_from sel e ups) ↔ ∃ x, x ∈ e :: ups ∧ sel x = true.
Proof.
  revert e. induction ups as [|p ups IH]; intros e; simpl.
  - destruct (sel e) eqn:He.
    + split; [|by eauto]. intros _. exists e. split; [by left|done].
    + split; [by intros [? ?]|].
      intros (x & Hx & Hs). apply list_elem_of_singleton in Hx as ->. congruence.
  - destruct (sel e) eqn:He.
    + split; [|by eauto]. intros _. exists e. split; [by left|done].
    + rewrite IH. split.
      * intros (x & Hx & Hs). exists x. split; [by right|done].
      * intros (x & Hx & Hs). exists x. split; [|done].
        apply elem_of_cons in Hx as [-> | Hx]; [congruence|done].
Qed.

Lemma closest_None sel n :
  closest sel n = None ↔ ∀ x, x ∈ self n :: ancestors n → sel x = false.
Proof.
  unfold closest. rewrite eq_None_not_Some, closest_from_is_Some. split.
  - intros H x Hx. destruct (sel x) eqn:E; [|done]. destruct H; eauto.
  - intros H (x & Hx & Hs). rewrite (H x Hx) in Hs. discriminate.
Qed.

(** C6, as claimed, fails: a click on a plain cell of a row whose
    [data-row-link] is empty requests no navigation at all. *)
Lemma empty_row_link_not_followed :
  let target := target_in [Samples.plain "TD"] Samples.unlinked_row Samples.table_path in
  let w := {| navigations := [] |} in
  getAttribute Samples.unlinked_row "data-row-link" = Some ""
  ∧ closest interactive target = None
  ∧ navigations (on_click Samples.unlinked_row target w) = []
  ∧ navigations (on_click Samples.unlinked_row target w) ≠ navigations w ++ [""].
Proof. simpl. split_and!; try (vm_compute; reflexivity). vm_compute. discriminate. Qed.

Lemma interactive_tags x :
  interactive x = true
  ↔ tagName x ∈ ["A"; "BUTTON"; "INPUT"; "SELECT"; "TEXTAREA"; "LABEL"].
Proof. unfold interactive, has_tag. apply bool_decide_eq_true. Qed.

(** C6 (amended): for a click inside a row carrying [data-row-link]: when
    the target or one of its ancestors is a link, button, input, select,
    textarea or label, nothing is navigated to; otherwise the location is set
    to the value of [data-row-link] when that value is not empty, and nothing
    is navigated to when it is empty. *)
Theorem row_click_navigation (row : element) (inner outer : list element)
    (href : string) (w : window) :
  getAttribute row "data-row-link" = Some href →
  let target := target_in inner row outer in
  ((∃ x, x ∈ self target :: ancestors target
         ∧ tagName x ∈ ["A"; "BUTTON"; "INPUT"; "SELECT"; "TEXTAREA"; "LABEL"]) →
     on_click row target w = w)
  ∧ ((∀ x, x ∈ self target :: ancestors target →
           tagName x ∉ ["A"; "BUTTON"; "INPUT"; "SELECT"; "TEXTAREA"; "LABEL"]) →
       (href ≠ "" → navigations (on_click row target w) = navigations w ++ [href])
       ∧ (href = "" → on_click row target w = w)).
Proof.
  intros Hrow target. unfold on_click. split.
  - intros (x & Hx & Ht).
    assert (H : is_Some (closest interactive target)).
    { unfold closest. apply closest_from_is_Some. exists x. split; [done|].
      by apply interactive_tags. }
    destruct H as [n ->]. done.
  - intros H.
    assert (Hc : closest interactive target = None).
    { apply closest_None. intros x Hx. specialize (H x Hx).
      destruct (interactive x) eqn:E; [|done]. by apply interactive_tags in E. }
    rewrite Hc, Hrow. split.
    + intros Hne. by destruct href.
    + by intros ->.
Qed.

Lemma row_click_navigation_witness :
  navigations
    (on_click Samples.order_row
       (target_in [Samples.plain "TD"] Samples.order_row Samples.table_path)
       {| navigations := [] |})
  = [] ++ ["/orders/7/"]
  ∧ on_click Samples.unlinked_row
      (target_in [Samples.plain "TD"] Samples.unlinked_row Samples.table_path)
      {| navigations := ["/orders/"] |}
    = {| navigations := ["/orders/"] |}.
Proof.
  assert (Hplain : ∀ row, tagName row = "TR" →
            ∀ x, x ∈ self (target_in [Samples.plain "TD"] row Samples.table_path)
                     :: ancestors (target_in [Samples.plain "TD"] row Samples.table_path) →
                 tagName x ∉ ["A"; "BUTTON"; "INPUT"; "SELECT"; "TEXTAREA"; "LABEL"]).
  { intros row Hrow x Hx Ht. simpl in Hx.
    repeat (apply elem_of_cons in Hx as [-> | Hx];
            [try rewrite Hrow in Ht; simpl in Ht;
             repeat (apply elem_of_cons in Ht as [Ht | Ht]; [discriminate Ht|]);
             by apply elem_of_nil in Ht|]).
    by apply elem_of_nil in Hx. }
  split.
  - destruct (row_click_navigation Samples.order_row [Samples.plain "TD"]
                Samples.table_path "/orders/7/" {| navigations := [] |} eq_refl)
      as (_ & H).
    destruct (H (Hplain Samples.order_row eq_refl)) as (H1 & _).
    apply H1. discriminate.
  - destruct (row_click_navigation Samples.unlinked_row [Samples.plain "TD"]
                Samples.table_path "" {| navigations := ["/orders/"] |} eq_refl)
      as (_ & H).
    destruct (H (Hplain Samples.unlinked_row eq_refl)) as (_ & H2).
    by apply H2.
Defined.

End RowClickProperties.

(** ** Confirmation modal *)

Section ConfirmProperties.
Import Dom ConfirmModal.



(** The state left when the listener has run to its end. *)
Lemma accept_unfold s trigger :
  pendingAction s = Some trigger →
  accept s
  = match (if is_link (self trigger) then
             ({| pendingAction := pendingAction s; modal_shown := modal_shown s;
                 textContent := textContent s;
                 navigations := navigations s ++ [Js.to_template (href (self trigger))];
                 submissions := submissions s;
                 defaultPrevented := defaultPrevented s |}, Js.Normal ())
           else if has_submit_type (self trigger) then
             match closest is_form trigger with
             | Some form => requestSubmit form trigger s
             | None => (s, Js.Normal ())
             end
           else (s, Js.Normal ())) with
    | (s1, Js.Normal _) =>
        ({| pendingAction := None; modal_shown := false;
            textContent := textContent s1;
            navigations := navigations s1;
            submissions := submissions s1;
            defaultPrevented := defaultPrevented s1 |}, Js.Normal ())
    | (s1, Js.Throw e) => (s1, Js.Throw e)
    end.
Proof. intros H. unfold accept. by rewrite H. Qed.




End ConfirmProperties.

(** ** Keyboard shortcuts *)

Section ShortcutProperties.
Import Dom Shortcuts.

Lemma escape_is_no_shortcut key :
  Js.toLowerCase key = "escape" →
  Js.toLowerCase key ≠ "n" ∧ Js.toLowerCase key ≠ "f".
Proof. intros ->. split; discriminate. Qed.

(** The shortcuts are live when focus is elsewhere: [n] asks for the
    order form. *)
Example n_opens_order_form :
  navigations
    (on_keydown Samples.shortcut_page "n"
       {| activeElement := Some (Samples.plain "BODY"); navigations := [];
          selected := false; defaultPrevented := false |})
  = ["https://crm.example/orders/create/"].
Proof. vm_compute. reflexivity. Qed.

(** C7: while focus is in an input, textarea or select, the keydown
    listener leaves everything as it is for every key that is not Escape:
    no navigation is requested, focus does not move, nothing is selected
    and the default action is not suppressed; so for [n] and [f]. *)
Theorem typing_suppresses_shortcuts (d : document) (key : string) (s : state) :
  typing s = true →
  key ≠ "Escape" →
  on_keydown d key s = s
  ∧ ¬ shortcut_acted s (on_keydown d key s).
Proof.
  intros Ht _.
  assert (E : on_keydown d key s = s).
  { unfold on_keydown. rewrite Ht.
    case_bool_decide as He; simpl; [|done].
    destruct (escape_is_no_shortcut key He) as [Hn Hf].
    by rewrite !bool_decide_false. }
  split; [exact E|]. rewrite E. unfold shortcut_acted.
  intros [H | [H | H]]; by apply H.
Qed.

Lemma typing_suppresses_shortcuts_witness :
  (on_keydown Samples.shortcut_page "n" Samples.in_textarea = Samples.in_textarea
   ∧ ¬ shortcut_acted Samples.in_textarea
         (on_keydown Samples.shortcut_page "n" Samples.in_textarea))
  ∧ (on_keydown Samples.shortcut_page "F" Samples.in_textarea = Samples.in_textarea
     ∧ ¬ shortcut_acted Samples.in_textarea
           (on_keydown Samples.shortcut_page "F" Samples.in_textarea)).
Proof.
  split.
  - apply (typing_suppresses_shortcuts Samples.shortcut_page "n" Samples.in_textarea);
      [reflexivity | discriminate].
  - apply (typing_suppresses_shortcuts Samples.shortcut_page "F" Samples.in_textarea);
      [reflexivity | discriminate].
Defined.

End ShortcutProperties.

(** ** Search results rendering *)

Section RenderProperties.
Import Js Search.

Lemma or_default_empty (x : option string) : or_default x "" = default "" x.
Proof. destruct x as [[|c s]|]; done. Qed.

(** The inner [forEach] appends the rows, in order, to what was there. *)
Lemma rows_foldl (items : list item) (acc tail : string) :
  foldl (λ h it, h +:+ link_row (url it) (title it) (or_default (meta it) ""))
    acc items +:+ tail
  = acc +:+ foldr (λ it rest,
                     link_row (url it) (title it) (default "" (meta it)) +:+ rest)
              tail items.
Proof.
  revert acc. induction items as [|it items IH]; intros acc; [done|].
  cbn [foldl foldr]. rewrite IH, app_assoc_s. by rewrite or_default_empty.
Qed.

Lemma render_group_spec payload html (g : Group.t) :
  render_group payload html g
  = html +:+ group_html (Group.title g) (payload !! Group.key g).
Proof.
  unfold render_group, group_html.
  destruct (payload !! Group.key g) as [[|it its]|]; simpl default.
  - by rewrite app_empty_r.
  - rewrite bool_decide_false by done.
    unfold section_html. by rewrite rows_foldl, app_assoc_s.
  - by rewrite app_empty_r.
Qed.

Lemma group_html_empty heading items :
  absent_or_empty items → group_html heading items = "".
Proof. by intros [-> | ->]. Qed.

Lemma group_html_truthy heading items :
  ¬ absent_or_empty items → truthy (group_html heading items) = true.
Proof.
  unfold absent_or_empty.
  destruct items as [[|it its]|]; [naive_solver| |naive_solver].
  intros _. reflexivity.
Qed.

Lemma absent_or_empty_dec items : Decision (absent_or_empty items).
Proof.
  destruct items as [[|it its]|].
  - left. by right.
  - right. by intros [? | ?].
  - left. by left.
Defined.

Lemma rendered_html payload :
  foldl (render_group payload) "" groups
  = group_html "Замовлення" (payload !! "orders")
    +:+ group_html "Клієнти" (payload !! "customers")
    +:+ group_html "Товари" (payload !! "products").
Proof.
  unfold groups. cbn [foldl]. rewrite !render_group_spec.
  cbn [Group.key Group.title]. by rewrite app_assoc_s.
Qed.

(** On a response without [null]s the renderer completes, with the panel
    of the typed embedding. *)
Lemma rows_raw (items : list item) (h : string) :
  foldl (λ a entry, bind a (λ h, render_item_raw h entry)) (Normal h) (Some <$> items)
  = Normal (foldl (λ h it, h +:+ link_row (url it) (title it) (or_default (meta it) ""))
              h items).
Proof.
  revert h. induction items as [|it items IH]; intros h; [done|].
  cbn [fmap list_fmap foldl]. cbn [bind render_item_raw]. apply IH.
Qed.

Lemma render_group_raw_agrees (payload : gmap string (list item)) h (g : Group.t) :
  render_group_raw ((λ items : list item, Some <$> items) <$> payload) (Normal h) g
  = Normal (render_group payload h g).
Proof.
  unfold render_group_raw, render_group. cbn [bind]. rewrite lookup_fmap.
  destruct (payload !! Group.key g) as [items|].
  - change (default [] ((λ items : list item, Some <$> items) <$> Some items))
      with (Some <$> items).
    change (default [] (Some items)) with items.
    rewrite length_fmap. case_bool_decide; [done|]. by rewrite rows_raw.
  - done.
Qed.

Lemma renderSearchResults_raw_agrees container (payload : gmap string (list item)) :
  renderSearchResults_raw container (without_nulls payload)
  = Normal (renderSearchResults container payload).
Proof.
  unfold renderSearchResults_raw, without_nulls, renderSearchResults, groups.
  cbn [foldl]. by rewrite !render_group_raw_agrees.
Qed.

(** C1, as claimed, fails: the response [null] is valid JSON with no array
    at all, and so is an object whose [orders] array holds [null].  For both
    the renderer throws, the [catch] takes over and the panel shows the
    search-error placeholder, not the nothing-found one and no group. *)
Lemma null_response_shows_error :
  renderSearchResults_raw {| hidden := true; innerHTML := "" |} None = Throw TypeError
  ∧ renderSearchResults_raw {| hidden := true; innerHTML := "" |}
      (Some {[ "orders" := [None] ]}) = Throw TypeError
  ∧ ∃ s', show_response None Samples.idle_search = Normal s'
          ∧ results s'
            = {| hidden := false;
                 innerHTML := "<div class=" +:+ String "034"%char ""
                              +:+ "global-search-empty" +:+ String "034"%char ""
                              +:+ ">Помилка пошуку</div>" |}
          ∧ results s'
            ≠ {| hidden := false;
                 innerHTML := "<div class=" +:+ String "034"%char ""
                              +:+ "global-search-empty" +:+ String "034"%char ""
                              +:+ ">Нічого не знайдено</div>" |}.
Proof.
  split_and!; try (vm_compute; reflexivity).
  eexists. split; [vm_compute; reflexivity|]. split; [reflexivity|].
  vm_compute. discriminate.
Qed.

(** C1 (amended): for a response that is an object whose [orders],
    [customers] and [products] fields are absent or arrays of objects with a
    url, a title and an optional meta text, the renderer completes and the
    markup it assigns to the panel is the orders group, then the customers
    group, then the products group, under their fixed headings; a populated
    group is its header followed by one anchor per item, in order, with the
    item's url as [href], then its title and its meta text (empty when it
    has none), all inserted as they are; an absent or empty group contributes
    nothing; and when none of the three is populated the markup is the single
    nothing-found placeholder. *)
Theorem results_grouped_in_order (container : panel)
    (payload : gmap string (list item)) :
  let q := String "034"%char "" in
  let row (it : item) (rest : string) :=
    "<a class=" +:+ q +:+ "global-search-item" +:+ q +:+ " href=" +:+ q
    +:+ url it +:+ q +:+ "><span>" +:+ title it +:+ "</span><span class=" +:+ q
    +:+ "global-search-meta" +:+ q +:+ ">" +:+ default "" (meta it)
    +:+ "</span></a>" +:+ rest in
  let group (heading key : string) :=
    match payload !! key with
    | Some (it :: its) =>
        "<section class=" +:+ q +:+ "global-search-group" +:+ q +:+ "><div class="
        +:+ q +:+ "global-search-group-title" +:+ q +:+ ">" +:+ heading +:+ "</div>"
        +:+ foldr row "</section>" (it :: its)
    | _ => ""
    end in
  let populated (key : string) := ∃ it its, payload !! key = Some (it :: its) in
  ∃ shown,
    renderSearchResults_raw container (without_nulls payload)
    = Normal {| hidden := false; innerHTML := shown |}
    ∧ (populated "orders" ∨ populated "customers" ∨ populated "products" →
         shown = group "Замовлення" "orders" +:+ group "Клієнти" "customers"
                 +:+ group "Товари" "products")
    ∧ (¬ (populated "orders" ∨ populated "customers" ∨ populated "products") →
         shown = "<div class=" +:+ q +:+ "global-search-empty" +:+ q
                 +:+ ">Нічого не знайдено</div>").
Proof.
  intros q row group populated.
  exists (innerHTML (renderSearchResults container payload)).
  split; [by rewrite renderSearchResults_raw_agrees|].
  assert (Hg : ∀ heading key, group heading key = group_html heading (payload !! key)).
  { assert (Hrow : ∀ it rest,
              row it rest
              = link_row (url it) (title it) (default "" (meta it)) +:+ rest).
    { intros it rest. unfold row, link_row, dq, q. by rewrite !app_assoc_s. }
    assert (Hrows : ∀ l,
              foldr row "</section>" l
              = foldr (λ it rest,
                         link_row (url it) (title it) (default "" (meta it)) +:+ rest)
                  "</section>" l).
    { induction l as [|it l IH]; [done|]. cbn [foldr]. by rewrite IH, Hrow. }
    intros heading key. unfold group, group_html, section_html, group_open.
    destruct (payload !! key) as [[|it its]|]; [done| |done].
    rewrite Hrows. unfold dq, q. by rewrite !app_assoc_s. }
  assert (Hp : ∀ key, populated key ↔ ¬ absent_or_empty (payload !! key)).
  { intros key. unfold populated, absent_or_empty.
    destruct (payload !! key) as [[|it its]|].
    - split; [by intros (? & ? & ?) | intros H; destruct H; by right].
    - split; [by intros _ [? | ?] | by eauto].
    - split; [by intros (? & ? & ?) | intros H; destruct H; by left]. }
  unfold renderSearchResults. cbn [innerHTML]. rewrite rendered_html, !Hg.
  split.
  - intros H.
    destruct (absent_or_empty_dec (payload !! "orders")) as [Ho|Ho];
      [|by rewrite truthy_app_l by by apply group_html_truthy].
    destruct (absent_or_empty_dec (payload !! "customers")) as [Hc|Hc];
      [|by rewrite truthy_app_r by by apply truthy_app_l, group_html_truthy].
    destruct (absent_or_empty_dec (payload !! "products")) as [Hq|Hq].
    + destruct H as [H | [H | H]]; by apply Hp in H.
    + by rewrite truthy_app_r by by apply truthy_app_r, group_html_truthy.
  - intros H.
    assert (Ho : absent_or_empty (payload !! "orders")).
    { destruct (absent_or_empty_dec (payload !! "orders")); [done|].
      destruct H. left. by apply Hp. }
    assert (Hc : absent_or_empty (payload !! "customers")).
    { destruct (absent_or_empty_dec (payload !! "customers")); [done|].
      destruct H. right; left. by apply Hp. }
    assert (Hq : absent_or_empty (payload !! "products")).
    { destruct (absent_or_empty_dec (payload !! "products")); [done|].
      destruct H. right; right. by apply Hp. }
    by rewrite !group_html_empty.
Qed.

Lemma results_grouped_in_order_witness :
  let q := String "034"%char "" in
  renderSearchResults_raw {| hidden := true; innerHTML := "" |}
    (without_nulls Samples.found)
  = Normal
      {| hidden := false;
         innerHTML :=
           "<section class=" +:+ q +:+ "global-search-group" +:+ q +:+ "><div class="
           +:+ q +:+ "global-search-group-title" +:+ q +:+ ">Замовлення</div>"
           +:+ "<a class=" +:+ q +:+ "global-search-item" +:+ q +:+ " href=" +:+ q
           +:+ "/o/1" +:+ q +:+ "><span>Order 1</span><span class=" +:+ q
           +:+ "global-search-meta" +:+ q +:+ "></span></a></section>"
           +:+ "<section class=" +:+ q +:+ "global-search-group" +:+ q +:+ "><div class="
           +:+ q +:+ "global-search-group-title" +:+ q +:+ ">Товари</div>"
           +:+ "<a class=" +:+ q +:+ "global-search-item" +:+ q +:+ " href=" +:+ q
           +:+ "/p/1" +:+ q +:+ "><span>Tea</span><span class=" +:+ q
           +:+ "global-search-meta" +:+ q +:+ "></span></a>"
           +:+ "<a class=" +:+ q +:+ "global-search-item" +:+ q +:+ " href=" +:+ q
           +:+ "/p/2" +:+ q +:+ "><span>Cup</span><span class=" +:+ q
           +:+ "global-search-meta" +:+ q +:+ ">12 pcs</span></a></section>" |}.
Proof.
  intros q.
  destruct (results_grouped_in_order {| hidden := true; innerHTML := "" |} Samples.found)
    as (shown & -> & H & _).
  rewrite H; [vm_compute; reflexivity|].
  left. by eexists _, _.
Defined.

(** The response [{"orders":[{"url":"/o/1","title":"Order 1"}]}] renders
    one group with one link to [/o/1]. *)
Example one_order_rendered :
  innerHTML (renderSearchResults {| hidden := true; innerHTML := "" |}
               {[ "orders" := [ {| url := "/o/1"; title := "Order 1"; meta := None |} ] ]})
  = group_open "Замовлення" +:+ link_row "/o/1" "Order 1" "" +:+ "</section>".
Proof. vm_compute. reflexivity. Qed.



End RenderProperties.

(** ** Failed searches *)

Section FailureProperties.
Import Js Search.

(** C3: when the request is rejected or the response is not OK, the
    callback completes normally (nothing is thrown out of it), the panel is
    visible and holds the search-error placeholder and nothing else, and no
    request is issued or scheduled again: the requests made and the pending
    timeouts are what they were. *)
Theorem failed_search_shows_error (o : outcome) (s : state) :
  (o = Rejected ∨ ∃ json, o = Response false json) →
  ∃ s', callback_resume o s = Normal s'
        ∧ hidden (results s') = false
        ∧ innerHTML (results s')
          = "<div class=" +:+ String "034"%char "" +:+ "global-search-empty"
            +:+ String "034"%char "" +:+ ">Помилка пошуку</div>"
        ∧ fetched s' = fetched s
        ∧ timeouts s' = timeouts s
        ∧ timer s' = timer s.
Proof.
  intros [-> | [json ->]]; exists (show_error s); by split_and!.
Qed.

Lemma failed_search_shows_error_witness :
  ∃ s', callback_resume (Response false None)
          (fetch "/search/?q=ab" (initial {| hidden := true; innerHTML := "" |}))
        = Normal s'
        ∧ hidden (results s') = false
        ∧ innerHTML (results s')
          = "<div class=" +:+ String "034"%char "" +:+ "global-search-empty"
            +:+ String "034"%char "" +:+ ">Помилка пошуку</div>"
        ∧ fetched s' = ["/search/?q=ab"]
        ∧ timeouts s' = []
        ∧ timer s' = None.
Proof.
  apply (failed_search_shows_error (Response false None)
           (fetch "/search/?q=ab" (initial {| hidden := true; innerHTML := "" |}))).
  right. by exists None.
Defined.

End FailureProperties.

(** ** Debounced search *)

Section DebounceProperties.
Import Js Search.
Variable endpoint : option string.

Lemma debounced_cases s :
  debounced s →
  timeouts s = []
  ∨ ∃ e, timeouts s = [e] ∧ timer s = Some (id e) ∧ now s < due e.
Proof.
  intros [Hlen Hall]. destruct (timeouts s) as [|e [|e' l]] eqn:Ht.
  - by left.
  - right. exists e. apply Forall_singleton in Hall as [? ?]. by split_and!.
  - simpl in Hlen. lia.
Qed.

Lemma debounced_initial p : debounced (initial p).
Proof. split; [simpl; lia | constructor]. Qed.

(** [clearTimeout(timer)] cancels whatever is pending. *)
Lemma clearTimeout_debounced s :
  debounced s → timeouts (clearTimeout (timer s) s) = [].
Proof.
  intros [H | (e & H & He & _)]%debounced_cases;
    unfold clearTimeout; cbn [timeouts]; rewrite H.
  - done.
  - rewrite filter_cons_False; [done|]. intros Hne. by apply Hne.
Qed.

Lemma on_input_fetched v s : fetched (on_input v s) = fetched s.
Proof. unfold on_input. by case_bool_decide. Qed.

Lemma on_input_now v s : now (on_input v s) = now s.
Proof. unfold on_input. by case_bool_decide. Qed.

Lemma on_input_armed v s : debounced s → armed v (on_input v s).
Proof.
  intros Hd. unfold armed, on_input. case_bool_decide as Hlen.
  - cbn [set_results timeouts results]. by rewrite clearTimeout_debounced.
  - exists (next_id s). cbn [setTimeout timeouts timer now].
    by rewrite clearTimeout_debounced.
Qed.

Lemma armed_debounced v s : armed v s → debounced s.
Proof.
  unfold armed, debounced. case_bool_decide.
  - intros [-> _]. split; [simpl; lia | constructor].
  - intros (i & -> & ->). split; [simpl; lia|].
    apply Forall_singleton. cbn [id due]. split; [done | lia].
Qed.

Lemma debounced_on_input v s : debounced s → debounced (on_input v s).
Proof. intros H. by eapply armed_debounced, on_input_armed. Qed.

(** The first half of the callback never completes abruptly. *)
Lemma callback_start_normal q s :
  callback_start endpoint q s
  = Normal (match encodeURIComponent q with
            | Normal enc => fetch (to_template endpoint +:+ "?q=" +:+ enc) s
            | Throw _ => show_error s
            end).
Proof. unfold callback_start. by destruct (encodeURIComponent q). Qed.

Lemma elapse_idle d s :
  timeouts s = [] →
  fetched (elapse endpoint d s) = fetched s ∧ timeouts (elapse endpoint d s) = []
  ∧ timer (elapse endpoint d s) = timer s ∧ now (elapse endpoint d s) = now s + d.
Proof. intros H. unfold elapse. by rewrite H. Qed.

(** A pending timeout does not run before it is due. *)
Lemma elapse_waiting d e s :
  timeouts s = [e] → now s + d < due e →
  fetched (elapse endpoint d s) = fetched s
  ∧ timeouts (elapse endpoint d s) = [e]
  ∧ timer (elapse endpoint d s) = timer s
  ∧ results (elapse endpoint d s) = results s
  ∧ now (elapse endpoint d s) = now s + d.
Proof.
  intros H Hlt. unfold elapse. rewrite H.
  rewrite (filter_cons_False (λ e, due e ≤ now s + d)) by (simpl; lia).
  rewrite (filter_cons_True (λ e, ¬ due e ≤ now s + d)) by (simpl; lia).
  by rewrite !filter_nil.
Qed.

(** It runs once when it has become due. *)
Lemma elapse_due d e s :
  timeouts s = [e] → due e ≤ now s + d →
  timeouts (elapse endpoint d s) = []
  ∧ timer (elapse endpoint d s) = timer s
  ∧ now (elapse endpoint d s) = now s + d
  ∧ match encodeURIComponent (query e) with
    | Normal enc =>
        fetched (elapse endpoint d s)
        = fetched s ++ [to_template endpoint +:+ "?q=" +:+ enc]
    | Throw _ =>
        fetched (elapse endpoint d s) = fetched s
        ∧ results (elapse endpoint d s)
          = {| hidden := false; innerHTML := error_html |}
    end.
Proof.
  intros H Hle. unfold elapse. rewrite H.
  rewrite (filter_cons_True (λ e, due e ≤ now s + d)) by (simpl; lia).
  rewrite (filter_cons_False (λ e, ¬ due e ≤ now s + d)) by (simpl; lia).
  rewrite !filter_nil.
  cbn [foldl]. unfold run_callback. rewrite callback_start_normal.
  by destruct (encodeURIComponent (query e)).
Qed.

Lemma debounced_elapse d s : debounced s → debounced (elapse endpoint d s).
Proof.
  intros Hd. destruct (debounced_cases s Hd) as [H | (e & H & Ht & Hn)].
  - destruct (elapse_idle d s H) as (_ & H' & _).
    unfold debounced. rewrite H'. split; [simpl; lia | constructor].
  - destruct (decide (now s + d < due e)) as [Hlt | Hge].
    + destruct (elapse_waiting d e s H Hlt) as (_ & H' & Ht' & _ & Hn').
      unfold debounced. rewrite H', Ht', Hn'. split; [simpl; lia|].
      by apply Forall_singleton.
    + destruct (elapse_due d e s H) as (H' & _); [lia|].
      unfold debounced. rewrite H'. split; [simpl; lia | constructor].
Qed.

Lemma debounced_resume o s s' :
  debounced s → callback_resume o s = Normal s' → debounced s'.
Proof.
  intros Hd. unfold callback_resume.
  destruct o as [|[] [payload|]]; simpl; by intros [= <-].
Qed.

(** Whatever happens after [initGlobalSearch], at most one timeout is
    pending, and it is the one [timer] names. *)
Lemma debounced_reachable p (evs : list event) :
  debounced (foldl (handle endpoint) (initial p) evs).
Proof.
  assert (H : ∀ s, debounced s → debounced (foldl (handle endpoint) s evs)).
  { induction evs as [|ev evs IH]; intros s Hs; [done|].
    apply IH. destruct ev as [v | d | o]; simpl.
    - by apply debounced_on_input.
    - by apply debounced_elapse.
    - destruct (callback_resume o s) as [s'|] eqn:E; [|done].
      by eapply debounced_resume. }
  apply H, debounced_initial.
Qed.

(** Less than 180 ms after an input event nothing has been requested and
    the component is still debounced. *)
Lemma armed_elapse_rapid v g s :
  armed v s → g < 180 →
  debounced (elapse endpoint g s) ∧ fetched (elapse endpoint g s) = fetched s.
Proof.
  intros Ha Hg. split; [by eapply debounced_elapse, armed_debounced|].
  unfold armed in Ha. case_bool_decide.
  - destruct Ha as [Ha _]. by destruct (elapse_idle g s Ha).
  - destruct Ha as (i & Ha & _).
    destruct (elapse_waiting g _ s Ha) as (? & _); [simpl; lia | done].
Qed.

Lemma burst_cons first g v more s :
  burst endpoint first ((g, v) :: more) s
  = burst endpoint v more (elapse endpoint g (on_input first s)).
Proof. done. Qed.

Lemma last_value_cons first g v more :
  last_value first ((g, v) :: more) = last_value v more.
Proof.
  unfold last_value. rewrite fmap_cons, last_cons_cons. cbn [snd].
  destruct (last_is_Some (v :: (snd <$> more))) as [_ [x ->]]; done.
Qed.

(** During a burst nothing is requested, and the burst leaves behind what
    its last input event set up. *)
Lemma burst_armed more : ∀ first s,
  debounced s → Forall (λ e, e.1 < 180) more →
  armed (last_value first more) (burst endpoint first more s)
  ∧ fetched (burst endpoint first more s) = fetched s.
Proof.
  induction more as [|[g v] more IH]; intros first s Hd Hgaps.
  - split; [by apply on_input_armed | apply on_input_fetched].
  - apply Forall_cons in Hgaps as [Hg Hgaps]. simpl in Hg.
    rewrite burst_cons, last_value_cons.
    destruct (armed_elapse_rapid first g (on_input first s)) as [Hd' Hf'];
      [by apply on_input_armed | done |].
    destruct (IH v _ Hd' Hgaps) as [Ha Hf]. split; [done|].
    by rewrite Hf, Hf', on_input_fetched.
Qed.

(** C2, as claimed, fails: a query of two unpaired surrogates is two code
    units long, yet when its timeout runs [encodeURIComponent] throws
    inside the [try], the error placeholder is shown and no request is
    made. *)
Lemma unpaired_surrogates_not_requested :
  let s1 := burst None Samples.lone_surrogates [] Samples.idle_search in
  2 ≤ length (trim Samples.lone_surrogates)
  ∧ fetched (elapse None 180 s1) = []
  ∧ results (elapse None 180 s1) = {| hidden := false; innerHTML := error_html |}
  ∧ length (fetched (elapse None 180 s1)) ≠ S (length (fetched Samples.idle_search)).
Proof.
  simpl. split_and!; [vm_compute; lia | by vm_compute | by vm_compute |].
  vm_compute. discriminate.
Qed.

(** C2 (amended): a burst of input events, each less than 180 ms after
    the one before, issues no request while it lasts.  When the trimmed
    query of its last event is shorter than 2, the panel is hidden and
    emptied and no request follows.  When it has length at least 2 and
    [encodeURIComponent] accepts it (it has no unpaired surrogate), no
    request has been made before 180 ms have passed since the last event,
    and exactly one, for that query, once they have. *)
Theorem debounced_search (s : state) (first : domstring)
    (more : list (nat * domstring)) :
  debounced s →
  Forall (λ e, e.1 < 180) more →
  let s1 := burst endpoint first more s in
  let q := trim (last_value first more) in
  fetched s1 = fetched s
  ∧ (length q < 2 →
       results s1 = {| hidden := true; innerHTML := "" |}
       ∧ ∀ d, fetched (elapse endpoint d s1) = fetched s)
  ∧ (2 ≤ length q →
       ∀ enc, encodeURIComponent q = Normal enc →
         ∀ d, fetched (elapse endpoint d s1)
              = if bool_decide (d < 180) then fetched s
                else fetched s ++ [to_template endpoint +:+ "?q=" +:+ enc]).
Proof.
  intros Hd Hgaps s1 q.
  destruct (burst_armed more first s Hd Hgaps) as [Ha Hf].
  fold s1 in Ha, Hf. unfold armed in Ha. fold q in Ha.
  split_and!; [done| |].
  - intros Hq. rewrite bool_decide_true in Ha by done.
    destruct Ha as [Ht Hr]. split; [done|].
    intros d. destruct (elapse_idle d s1 Ht) as [-> _]. done.
  - intros Hq enc Henc d. rewrite bool_decide_false in Ha by lia.
    destruct Ha as (i & Ht & _). case_bool_decide as Hdl.
    + destruct (elapse_waiting d _ s1 Ht) as [-> _]; [simpl; lia | done].
    + destruct (elapse_due d _ s1 Ht) as (_ & _ & _ & H); [simpl; lia|].
      cbn [query] in H. rewrite Henc in H. by rewrite H, Hf.
Qed.

(** Typing [ab] and clearing the field 100 ms later: the scheduled request
    is cancelled and none is ever made. *)
Example cleared_field_requests_nothing :
  length (trim Samples.blank) < 2
  ∧ ∀ d, fetched (elapse endpoint d
                    (burst endpoint Samples.ab [(100, Samples.blank)]
                       Samples.idle_search)) = [].
Proof.
  split; [vm_compute; lia|]. intros d.
  destruct (burst_armed [(100, Samples.blank)] Samples.ab Samples.idle_search)
    as [Ha Hf]; [apply debounced_initial | repeat constructor |].
  destruct Ha as [Ht _]. by destruct (elapse_idle d _ Ht) as [-> _].
Qed.

End DebounceProperties.

Lemma debounced_search_witness :
  let s1 := Search.burst (Some "/search/") Samples.ab [(100, Samples.abc)]
              Samples.idle_search in
  Search.fetched s1 = []
  ∧ Search.fetched (Search.elapse (Some "/search/") 179 s1) = []
  ∧ Search.fetched (Search.elapse (Some "/search/") 180 s1) = ["/search/?q=abc"].
Proof.
  destruct (debounced_search (Some "/search/") Samples.idle_search Samples.ab
              [(100, Samples.abc)]) as (H0 & _ & H).
  - apply debounced_initial.
  - repeat constructor.
  - split_and!.
    + exact H0.
    + apply (H ltac:(vm_compute; lia) "abc" eq_refl 179).
    + apply (H ltac:(vm_compute; lia) "abc" eq_refl 180).
Defined.

(** * Further properties *)

(** ** Theme manager *)

Section ThemeFurther.
Import Theme.

Lemma theme_attr_bind_toggle p : theme_attr (bind_toggle p) = theme_attr p.
Proof. done. Qed.

Lemma themeToggle_setTheme t p :
  themeToggle (setTheme t p)
  = (λ _, if bool_decide (t = "dark") then sun_label else moon_label) <$> themeToggle p.
Proof. unfold setTheme. cbn [themeToggle]. by destruct (themeToggle p). Qed.

(** X1: with nothing stored under [crm_theme], or an empty string,
    initialization applies the system preference: the root attribute and the
    stored value are [dark] when the system prefers dark and [light]
    otherwise. *)
Theorem system_preference_applied (prefers_dark : bool) (p : page) :
  stored p = None ∨ stored p = Some "" →
  theme_attr (initTheme prefers_dark p) = Some (if prefers_dark then "dark" else "light")
  ∧ stored (initTheme prefers_dark p) = Some (if prefers_dark then "dark" else "light").
Proof.
  intros H. rewrite initTheme_unfold, theme_attr_bind_toggle, stored_bind_toggle.
  rewrite theme_attr_setTheme, stored_setTheme.
  assert (E : initial_theme prefers_dark p = if prefers_dark then "dark" else "light").
  { unfold initial_theme. unfold stored in H. by destruct H as [-> | ->]. }
  by rewrite E.
Qed.

Lemma system_preference_applied_witness :
  theme_attr (initTheme true Samples.fresh_page) = Some "dark"
  ∧ stored (initTheme true Samples.fresh_page) = Some "dark".
Proof.
  apply (system_preference_applied true Samples.fresh_page). left. reflexivity.
Defined.

(** X2: a theme given to [setTheme] comes back at the next page load: on any
    page whose storage is the one [setTheme] left, initialization applies
    that theme again, whatever the system preference. *)
Theorem saved_theme_restored (theme : string) (prefers_dark : bool) (p reloaded : page) :
  theme ≠ "" →
  localStorage reloaded = localStorage (setTheme theme p) →
  theme_attr (initTheme prefers_dark reloaded) = Some theme
  ∧ stored (initTheme prefers_dark reloaded) = Some theme.
Proof.
  intros Hne Hs. rewrite initTheme_unfold, theme_attr_bind_toggle, stored_bind_toggle.
  rewrite theme_attr_setTheme, stored_setTheme.
  assert (E : initial_theme prefers_dark reloaded = theme).
  { unfold initial_theme. rewrite Hs.
    change (localStorage (setTheme theme p) !! THEME_KEY) with (stored (setTheme theme p)).
    rewrite stored_setTheme. by destruct theme. }
  by rewrite E.
Qed.

Lemma saved_theme_restored_witness :
  theme_attr (initTheme true (setTheme "light" Samples.fresh_page)) = Some "light"
  ∧ stored (initTheme true (setTheme "light" Samples.fresh_page)) = Some "light".
Proof.
  apply (saved_theme_restored "light" true Samples.fresh_page
           (setTheme "light" Samples.fresh_page)); [discriminate | reflexivity].
Defined.

Lemma setTheme_coherent t p : coherent (setTheme t p).
Proof.
  split; [by rewrite theme_attr_setTheme, stored_setTheme|].
  intros h. rewrite themeToggle_setTheme, theme_attr_setTheme.
  destruct (themeToggle p); [|done]. intros [= <-].
  repeat case_bool_decide; congruence.
Qed.

Lemma bind_toggle_coherent p : coherent p → coherent (bind_toggle p).
Proof. done. Qed.

Lemma step_coherent o p : coherent p → coherent (step o p).
Proof.
  intros Hp. destruct o as [d|]; cbn [step].
  - rewrite initTheme_unfold. apply bind_toggle_coherent, setTheme_coherent.
  - unfold click_toggle. destruct (toggle_bound p); [|done].
    apply setTheme_coherent.
Qed.

Lemma run_coherent ops p : coherent p → coherent (run ops p).
Proof.
  revert p. induction ops as [|o ops IH]; intros p Hp; [done|].
  apply IH, step_coherent, Hp.
Qed.

(** X3: once the page has been initialized, and after every later theme
    operation, the root's [data-theme] attribute equals the value stored
    under [crm_theme], whatever the page and its storage held before. *)
Theorem attribute_matches_store (prefers_dark : bool) (ops : list op) (p : page) :
  theme_attr (run (Init prefers_dark :: ops) p)
  = stored (run (Init prefers_dark :: ops) p)
  ∧ is_Some (stored (run (Init prefers_dark :: ops) p)).
Proof.
  change (run (Init prefers_dark :: ops) p) with (run ops (initTheme prefers_dark p)).
  assert (H : ∀ q, is_Some (stored q) → is_Some (stored (run ops q))).
  { induction ops as [|o ops IH]; intros q Hq; [done|]. apply IH.
    destruct o as [d|]; cbn [step].
    - rewrite initTheme_unfold, stored_bind_toggle, stored_setTheme. by eexists.
    - unfold click_toggle. destruct (toggle_bound q); [|done].
      unfold toggle_listener. rewrite stored_setTheme. by eexists. }
  split.
  - apply run_coherent. rewrite initTheme_unfold.
    apply bind_toggle_coherent, setTheme_coherent.
  - apply H. rewrite initTheme_unfold, stored_bind_toggle, stored_setTheme. by eexists.
Qed.



Lemma setTheme_other_key t p k :
  k ≠ THEME_KEY → localStorage (setTheme t p) !! k = localStorage p !! k.
Proof. intros H. unfold setTheme. cbn [localStorage]. by rewrite lookup_insert_ne. Qed.

Lemma setTheme_other_attr t p a :
  a ≠ "data-theme" → root_attributes (setTheme t p) !! a = root_attributes p !! a.
Proof. intros H. unfold setTheme. cbn [root_attributes]. by rewrite lookup_insert_ne. Qed.

(** X5: no theme operation touches anything but its own key and attribute:
    every other entry of the storage and every other attribute of the root
    element is what it was, through any sequence of initializations and
    toggle clicks. *)
Theorem theme_leaves_the_rest (ops : list op) (p : page) (k a : string) :
  k ≠ THEME_KEY →
  a ≠ "data-theme" →
  localStorage (run ops p) !! k = localStorage p !! k
  ∧ root_attributes (run ops p) !! a = root_attributes p !! a.
Proof.
  intros Hk Ha. revert p. induction ops as [|o ops IH]; intros p; [done|].
  change (run (o :: ops) p) with (run ops (step o p)).
  destruct (IH (step o p)) as [-> ->].
  destruct o as [d|]; cbn [step].
  - rewrite initTheme_unfold. unfold bind_toggle. cbn [localStorage root_attributes].
    by rewrite setTheme_other_key, setTheme_other_attr.
  - unfold click_toggle. destruct (toggle_bound p); [|done].
    unfold toggle_listener. by rewrite setTheme_other_key, setTheme_other_attr.
Qed.

Lemma theme_leaves_the_rest_witness :
  localStorage (run [Init true; Toggle] Samples.foreign_page) !! "cart"
  = localStorage Samples.foreign_page !! "cart"
  ∧ root_attributes (run [Init true; Toggle] Samples.foreign_page) !! "lang"
    = root_attributes Samples.foreign_page !! "lang".
Proof.
  apply (theme_leaves_the_rest [Init true; Toggle] Samples.foreign_page "cart" "lang");
    discriminate.
Defined.

End ThemeFurther.

(** ** Submit loading state *)

Section LoadingFurther.
Import Dom LoadingButtons.
Variable parse : string → list (nat * element).

Lemma loading_markup_literal b :
  loading_html (Js.or_default (getAttribute b "data-loading-text") "Збереження...")
  = "<span class=" +:+ String "034"%char "" +:+ "btn-spinner" +:+ String "034"%char ""
    +:+ "></span><span class=" +:+ String "034"%char "" +:+ "btn-label"
    +:+ String "034"%char "" +:+ ">"
    +:+ match getAttribute b "data-loading-text" with
        | Some (String c r) => String c r
        | _ => "Збереження..."
        end
    +:+ "</span>".
Proof.
  unfold loading_html, Js.or_default, Js.dq.
  by destruct (getAttribute b "data-loading-text") as [[|c r]|].
Qed.

(** X6: a submit changes nothing outside the first control the selector
    matches and its descendants.  A form without such a control, or whose
    first such control already carries the flag, is left as it is.  Otherwise
    the elements before the control and those after its descendants stay in
    place, the descendants are replaced by what the spinner and label markup
    parses to, and the control keeps its tag, its [href] and [type] and every
    attribute other than [data-loading-bound], [class] and [disabled]. *)
Theorem submit_touches_one_control (form : list (nat * element)) :
  (querySelector submit_selector form = None → on_submit parse form = form)
  ∧ ∀ i d b,
      querySelector submit_selector form = Some i →
      form !! i = Some (d, b) →
      (getAttribute b "data-loading-bound" = Some "1" → on_submit parse form = form)
      ∧ (getAttribute b "data-loading-bound" ≠ Some "1" →
           ∃ b',
             on_submit parse form
             = take i form
               ++ (d, b')
                  :: ((λ x, (S d + x.1, x.2))
                        <$> parse
                              ("<span class=" +:+ String "034"%char ""
                               +:+ "btn-spinner" +:+ String "034"%char ""
                               +:+ "></span><span class=" +:+ String "034"%char ""
                               +:+ "btn-label" +:+ String "034"%char "" +:+ ">"
                               +:+ match getAttribute b "data-loading-text" with
                                   | Some (String c r) => String c r
                                   | _ => "Збереження..."
                                   end
                               +:+ "</span>"))
               ++ after_subtree d (drop (S i) form)
             ∧ tagName b' = tagName b ∧ href b' = href b ∧ type b' = type b
             ∧ ∀ a, a ≠ "data-loading-bound" → a ≠ "class" → a ≠ "disabled" →
                    getAttribute b' a = getAttribute b a).
Proof.
  split.
  - intros Hq. unfold on_submit. by rewrite Hq.
  - intros i d b Hq Hb. rewrite (on_submit_selected parse form i Hq). split.
    + intros H. by apply (setButtonLoadingState_bound parse i d b).
    + intros H. exists (loading b).
      rewrite (setButtonLoadingState_fresh parse i d b form Hb H).
      rewrite loading_markup_literal.
      split_and!; [done..|]. apply loading_attribute.
Qed.

End LoadingFurther.

Lemma submit_touches_one_control_witness :
  ∃ b', LoadingButtons.on_submit (Samples.parse_plain "Saving") Samples.order_form
        = [ (1, Samples.plain "DIV"); (2, Samples.plain "INPUT"); (1, b');
            (2, Samples.spinner_span); (2, Samples.label_span "Saving");
            (1, Samples.plain "BUTTON") ]
        ∧ Dom.tagName b' = "BUTTON"
        ∧ Dom.getAttribute b' "type" = Some "submit"
        ∧ Dom.getAttribute b' "data-loading-text" = Some "Saving".
Proof.
  destruct (submit_touches_one_control (Samples.parse_plain "Saving") Samples.order_form)
    as (_ & H).
  destruct (H 2 1 Samples.save_button) as (_ & H').
  - vm_compute. reflexivity.
  - reflexivity.
  - destruct H' as (b' & E & Ht & _ & _ & Ha); [vm_compute; discriminate|].
    exists b'. split_and!.
    + exact E.
    + exact Ht.
    + by rewrite Ha.
    + by rewrite Ha.
Defined.

(** ** Row-click navigation *)

Section RowClickFurther.
Import Dom RowClick.

Lemma target_in_path inner row outer :
  self (target_in inner row outer) :: ancestors (target_in inner row outer)
  = inner ++ row :: outer.
Proof. by destruct inner. Qed.

(** X7: the search for an interactive element does not stop at the row.
    When the row itself is a link, button, input, select, textarea or label,
    or lies inside one, no click anywhere in it navigates. *)
Theorem row_inside_control_never_navigates (row : element)
    (inner outer : list element) (w : window) :
  (interactive row = true ∨ ∃ x, x ∈ outer ∧ interactive x = true) →
  on_click row (target_in inner row outer) w = w.
Proof.
  intros H. unfold on_click.
  assert (Hc : is_Some (closest interactive (target_in inner row outer))).
  { unfold closest. apply closest_from_is_Some. rewrite target_in_path.
    destruct H as [Hr | (x & Hx & Hi)].
    - exists row. split; [|done]. apply elem_of_app. right. by left.
    - exists x. split; [|done]. apply elem_of_app. right. by right. }
  destruct Hc as [n ->]. done.
Qed.

Lemma row_inside_control_never_navigates_witness :
  on_click Samples.order_row
    (target_in [Samples.plain "TD"] Samples.order_row Samples.label_path)
    {| navigations := [] |}
  = {| navigations := [] |}.
Proof.
  apply (row_inside_control_never_navigates Samples.order_row [Samples.plain "TD"]
           Samples.label_path {| navigations := [] |}).
  right. exists (Samples.plain "LABEL"). split; [|reflexivity].
  do 2 right. by left.
Defined.

End RowClickFurther.

(** ** Confirmation modal *)

Section ConfirmFurther.
Import Dom ConfirmModal.

(** X8: a confirmed action runs once.  When the accept listener has run to
    its end, a second click on the accept button, with no new trigger in
    between, completes as well and changes nothing: no further navigation
    and no further submission is requested. *)
Theorem accept_acts_once (s s1 : state) :
  accept s = (s1, Js.Normal ()) →
  accept s1 = (s1, Js.Normal ())
  ∧ pendingAction s1 = None
  ∧ navigations (on_accept s1) = navigations s1
  ∧ submissions (on_accept s1) = submissions s1.
Proof.
  intros H.
  assert (Hp : pendingAction s1 = None).
  { destruct (pendingAction s) as [trigger|] eqn:Ep.
    - rewrite (accept_unfold s trigger Ep) in H.
      destruct (if is_link (self trigger) then _ else _) as [s' [u|e]];
        [by injection H as <- | discriminate H].
    - unfold accept in H. rewrite Ep in H. by injection H as <-. }
  assert (E : accept s1 = (s1, Js.Normal ())) by (unfold accept; by rewrite Hp).
  unfold on_accept. rewrite E. done.
Qed.

Lemma accept_acts_once_witness :
  accept (on_accept Samples.confirming) = (on_accept Samples.confirming, Js.Normal ())
  ∧ pendingAction (on_accept Samples.confirming) = None
  ∧ navigations (on_accept (on_accept Samples.confirming))
    = navigations (on_accept Samples.confirming)
  ∧ submissions (on_accept (on_accept Samples.confirming))
    = submissions (on_accept Samples.confirming).
Proof.
  apply (accept_acts_once Samples.confirming (on_accept Samples.confirming)).
  vm_compute. reflexivity.
Defined.

(** X9: a link marked with [data-confirm] is followed only on acceptance.
    The click on it, or on anything inside it whose nearest marked ancestor
    it is, has its default action prevented and requests nothing; accepting
    then requests exactly one navigation, to that link's href, and leaves
    the dialog hidden with no trigger pending. *)
Theorem confirmed_link_is_followed (target trigger : node) (s : state) :
  closest has_confirm target = Some trigger →
  is_link (self trigger) = true →
  let clicked := on_click target s in
  let accepted := on_accept clicked in
  defaultPrevented clicked = true
  ∧ modal_shown clicked = true
  ∧ navigations clicked = navigations s
  ∧ submissions clicked = submissions s
  ∧ navigations accepted = navigations s ++ [Js.to_template (href (self trigger))]
  ∧ submissions accepted = submissions s
  ∧ pendingAction accepted = None
  ∧ modal_shown accepted = false.
Proof.
  intros Hc Hl clicked accepted. subst accepted clicked.
  unfold on_click. rewrite Hc. unfold on_accept, accept.
  cbn [pendingAction navigations submissions defaultPrevented modal_shown].
  rewrite Hl. by cbn [fst pendingAction navigations submissions modal_shown].
Qed.

Lemma confirmed_link_is_followed_witness :
  let clicked := on_click Samples.icon_in_delete_link Samples.idle_modal in
  let accepted := on_accept clicked in
  defaultPrevented clicked = true
  ∧ modal_shown clicked = true
  ∧ navigations clicked = []
  ∧ submissions clicked = []
  ∧ navigations accepted = [] ++ ["https://crm.example/orders/7/delete/"]
  ∧ submissions accepted = []
  ∧ pendingAction accepted = None
  ∧ modal_shown accepted = false.
Proof.
  apply (confirmed_link_is_followed Samples.icon_in_delete_link
           {| self := Samples.delete_link;
              ancestors := [Samples.plain "TD"; Samples.order_row] |}
           Samples.idle_modal); reflexivity.
Defined.

End ConfirmFurther.

(** ** Keyboard shortcuts *)

Section ShortcutFurther.
Import Dom Shortcuts.

(** X10: only [n] and [f], in either case, are shortcuts: for every other
    key the listener leaves everything as it is and does not prevent the
    default action, wherever the focus is. *)
Theorem other_keys_are_left_alone (d : document) (key : string) (s : state) :
  Js.toLowerCase key ≠ "n" →
  Js.toLowerCase key ≠ "f" →
  on_keydown d key s = s.
Proof.
  intros Hn Hf. unfold on_keydown.
  rewrite (bool_decide_false _ Hn), (bool_decide_false _ Hf).
  by destruct (typing s && negb (bool_decide (Js.toLowerCase key = "escape"))).
Qed.

Lemma other_keys_are_left_alone_witness :
  on_keydown Samples.shortcut_page "Enter" Samples.at_body = Samples.at_body.
Proof.
  apply (other_keys_are_left_alone Samples.shortcut_page "Enter" Samples.at_body);
    discriminate.
Defined.



End ShortcutFurther.

(** ** Global search *)

Section SearchFurther.
Import Js Search.
Variable endpoint : option string.

Lemma callback_resume_normal o s :
  ∃ s', callback_resume o s = Normal s'
        ∧ fetched s' = fetched s ∧ timeouts s' = timeouts s ∧ timer s' = timer s
        ∧ now s' = now s
        ∧ results s'
          = match o with
            | Response true (Some payload) =>
                renderSearchResults {| hidden := true; innerHTML := "" |} payload
            | _ => {| hidden := false; innerHTML := error_html |}
            end.
Proof.
  destruct o as [|[] [payload|]]; eexists; (split; [reflexivity|]); by split_and!.
Qed.


(** What is requested or still scheduled. *)
Lemma handle_budget s ev :
  debounced s →
  length (fetched (handle endpoint s ev)) + length (timeouts (handle endpoint s ev))
  ≤ length (fetched s) + length (timeouts s) + long_inputs [ev].
Proof.
  intros Hd. destruct ev as [v | d | o]; cbn [handle long_inputs].
  - rewrite on_input_fetched. pose proof (on_input_armed v s Hd) as Ha.
    unfold armed in Ha. case_bool_decide as Hs.
    + destruct Ha as [-> _]. rewrite bool_decide_false by lia. simpl. lia.
    + destruct Ha as (i & -> & _). rewrite bool_decide_true by lia. simpl. lia.
  - destruct (debounced_cases s Hd) as [H | (e & H & _ & Hn)].
    + destruct (elapse_idle endpoint d s H) as (-> & -> & _). rewrite H. lia.
    + destruct (decide (now s + d < due e)) as [Hlt | Hge].
      * destruct (elapse_waiting endpoint d e s H Hlt) as (-> & -> & _).
        rewrite H. lia.
      * destruct (elapse_due endpoint d e s H) as (-> & _ & _ & Hf); [lia|].
        rewrite H. destruct (encodeURIComponent (query e)).
        -- rewrite Hf, length_app. simpl. lia.
        -- destruct Hf as [-> _]. simpl. lia.
  - destruct (callback_resume_normal o s) as (s' & -> & -> & -> & _). lia.
Qed.

Lemma handle_debounced s ev : debounced s → debounced (handle endpoint s ev).
Proof.
  intros Hd. destruct ev as [v | d | o]; cbn [handle].
  - by apply debounced_on_input.
  - by apply debounced_elapse.
  - destruct (callback_resume o s) as [s'|] eqn:E; [|done].
    by eapply debounced_resume.
Qed.

Lemma run_budget evs : ∀ s,
  debounced s →
  length (fetched (foldl (handle endpoint) s evs))
  + length (timeouts (foldl (handle endpoint) s evs))
  ≤ length (fetched s) + length (timeouts s) + long_inputs evs.
Proof.
  induction evs as [|ev evs IH]; intros s Hd; [simpl; lia|].
  cbn [foldl]. pose proof (IH _ (handle_debounced s ev Hd)) as H1.
  pose proof (handle_budget s ev Hd) as H2.
  assert (long_inputs (ev :: evs) = long_inputs [ev] + long_inputs evs) as ->.
  { destruct ev; simpl; lia. }
  lia.
Qed.

(** X13: whatever the order of input events, passing time and settling
    requests after the page has loaded, the number of requests made never
    exceeds the number of input events whose trimmed query had at least two
    code units. *)
Theorem requests_bounded_by_inputs (p : panel) (evs : list event) :
  length (fetched (foldl (handle endpoint) (initial p) evs)) ≤ long_inputs evs.
Proof.
  pose proof (run_budget evs (initial p) (debounced_initial p)) as H.
  simpl in H. lia.
Qed.

Lemma trimStart_blank s : blank s → trimStart s = [].
Proof.
  induction 1 as [|u s Hu _ IH]; [done|]. simpl. by rewrite Hu.
Qed.

Lemma trimStart_length s : length (trimStart s) ≤ length s.
Proof.
  induction s as [|u s IH]; [done|]. simpl. destruct (is_white u); simpl; lia.
Qed.

Lemma trim_blank s : blank s → trim s = [].
Proof. intros H. unfold trim, trimEnd. by rewrite (trimStart_blank s H). Qed.

Lemma trim_length s : length (trim s) ≤ length s.
Proof.
  unfold trim, trimEnd. rewrite length_rev.
  etrans; [apply trimStart_length|]. rewrite length_rev. apply trimStart_length.
Qed.

(** X14: an input event whose value is shorter than two code units, or is
    nothing but whitespace however long, hides and empties the panel,
    cancels the scheduled request and schedules none: no request follows,
    however long one waits. *)
Theorem blank_input_requests_nothing (value : domstring) (s : state) :
  debounced s →
  length value < 2 ∨ blank value →
  results (on_input value s) = {| hidden := true; innerHTML := "" |}
  ∧ timeouts (on_input value s) = []
  ∧ ∀ d, fetched (elapse endpoint d (on_input value s)) = fetched s.
Proof.
  intros Hd Hv.
  assert (Hs : length (trim value) < 2).
  { destruct Hv as [Hl | Hb].
    - pose proof (trim_length value). lia.
    - rewrite (trim_blank value Hb). simpl. lia. }
  pose proof (on_input_armed value s Hd) as Ha. unfold armed in Ha.
  rewrite bool_decide_true in Ha by done. destruct Ha as [Ht Hr].
  split_and!; [done|done|]. intros d.
  destruct (elapse_idle endpoint d _ Ht) as [-> _]. apply on_input_fetched.
Qed.

End SearchFurther.

Lemma blank_input_requests_nothing_witness :
  Search.results (Search.on_input [0x20; 0x9; 0xA0; 0x20]%N Samples.idle_search)
  = {| Search.hidden := true; Search.innerHTML := "" |}
  ∧ Search.timeouts (Search.on_input [0x20; 0x9; 0xA0; 0x20]%N Samples.idle_search) = []
  ∧ ∀ d, Search.fetched
           (Search.elapse None d
              (Search.on_input [0x20; 0x9; 0xA0; 0x20]%N Samples.idle_search))
         = Search.fetched Samples.idle_search.
Proof.
  apply (blank_input_requests_nothing None [0x20; 0x9; 0xA0; 0x20]%N Samples.idle_search).
  - apply debounced_initial.
  - right. repeat constructor.
Defined.

(** ** The request URL *)

Section EncodingProperties.
Import Js.

Lemma url_safe_app a b : url_safe a → url_safe b → url_safe (a +:+ b).
Proof.
  induction a as [|c a IH]; [done|]. intros [Hc Ha] Hb.
  change (String c a +:+ b) with (String c (a +:+ b)). split; [done|]. by apply IH.
Qed.

Lemma hex_digit_unreserved n :
  (n < 16)%N → unreserved (N_of_ascii (hex_digit n)) = true.
Proof.
  intros H. assert (Hk : N.to_nat n < 16) by lia.
  rewrite <- (N2Nat.id n). clear H. revert Hk. generalize (N.to_nat n). intros k Hk.
  do 16 (destruct k as [|k]; [reflexivity|]). lia.
Qed.

Lemma percent_safe byte : (byte < 256)%N → url_safe (percent byte).
Proof.
  intros H. unfold percent. cbn [url_safe].
  split; [by left|]. split; [|split; [|done]]; right; apply hex_digit_unreserved.
  - apply N.Div0.div_lt_upper_bound. lia.
  - apply N.mod_lt. lia.
Qed.

Lemma utf8_escaped_safe cp : (cp < 0x110000)%N → url_safe (utf8_escaped cp).
Proof.
  intros H. unfold utf8_escaped.
  assert (H64 : ∀ x, (0x80 + x mod 64 < 256)%N).
  { intros x. pose proof (N.mod_lt x 64). lia. }
  destruct (cp <? 0x80)%N eqn:E1; [apply N.ltb_lt in E1; apply percent_safe; lia|].
  destruct (cp <? 0x800)%N eqn:E2.
  { apply N.ltb_lt in E2. apply url_safe_app; apply percent_safe; [|done].
    assert (cp / 64 < 32)%N by (apply N.Div0.div_lt_upper_bound; lia). lia. }
  destruct (cp <? 0x10000)%N eqn:E3.
  { apply N.ltb_lt in E3. repeat apply url_safe_app; try apply percent_safe; try done.
    assert (cp / 4096 < 16)%N by (apply N.Div0.div_lt_upper_bound; lia). lia. }
  repeat apply url_safe_app; try apply percent_safe; try done.
  assert (cp / 262144 < 5)%N by (apply N.Div0.div_lt_upper_bound; lia). lia.
Qed.

Lemma unreserved_ascii u :
  unreserved u = true → unreserved (N_of_ascii (ascii_of_N u)) = true.
Proof.
  intros H. assert (Hu : (u < 256)%N).
  { unfold unreserved in H.
    repeat (apply orb_true_iff in H as [H | H]);
      try (apply andb_true_iff in H as [_ H]; apply N.leb_le in H; lia);
      apply N.eqb_eq in H; lia. }
  by rewrite N_ascii_embedding.
Qed.

Lemma encodeURIComponent_safe_upto n : ∀ q enc,
  length q ≤ n → sixteen_bit q →
  encodeURIComponent q = Normal enc → url_safe enc.
Proof.
  induction n as [|n IH]; intros q enc Hlen Hq.
  { destruct q; [|simpl in Hlen; lia]. by intros [= <-]. }
  destruct q as [|u r]; [by intros [= <-]|].
  apply Forall_cons in Hq as [Hu Hr]. simpl in Hlen. cbn [encodeURIComponent].
  destruct (unreserved u) eqn:Eu.
  { destruct (encodeURIComponent r) as [t|] eqn:Er; [|done]. intros [= <-].
    split; [right; by apply unreserved_ascii|]. apply (IH r); [lia|done|done]. }
  destruct (is_trail u) eqn:Et; [done|].
  destruct (is_lead u) eqn:El.
  - destruct r as [|v r']; [done|].
    destruct (is_trail v) eqn:Ev; [|done].
    apply Forall_cons in Hr as [Hv Hr']. simpl in Hlen.
    destruct (encodeURIComponent r') as [t|] eqn:Er; [|done]. intros [= <-].
    apply url_safe_app; [|apply (IH r'); [lia|done|done]].
    apply utf8_escaped_safe.
    unfold is_lead in El. unfold is_trail in Ev.
    apply andb_true_iff in El as [_ El]. apply andb_true_iff in Ev as [_ Ev].
    apply N.leb_le in El. apply N.leb_le in Ev. lia.
  - destruct (encodeURIComponent r) as [t|] eqn:Er; [|done]. intros [= <-].
    apply url_safe_app; [|apply (IH r); [lia|done|done]].
    apply utf8_escaped_safe. lia.
Qed.

(** X15: the query is always sent percent-encoded.  When the timer's
    callback runs for a query of 16-bit code units, it either reports the
    search error without a request, or requests the endpoint followed by
    [?q=] and a string made only of letters, digits, [-_.!~*'()] and percent
    signs: the typed text cannot add a parameter, a fragment or a path to the
    URL. *)
Theorem query_is_percent_encoded (endpoint : option string) (q : domstring)
    (s : Search.state) :
  sixteen_bit q →
  ∃ s', Search.callback_start endpoint q s = Normal s'
        ∧ ((Search.fetched s' = Search.fetched s
            ∧ Search.results s'
              = {| Search.hidden := false; Search.innerHTML := Search.error_html |})
           ∨ ∃ enc, url_safe enc
                    ∧ Search.fetched s'
                      = Search.fetched s ++ [to_template endpoint +:+ "?q=" +:+ enc]).
Proof.
  intros Hq. rewrite callback_start_normal. eexists. split; [reflexivity|].
  destruct (encodeURIComponent q) as [enc|] eqn:E.
  - right. exists enc. split; [|done].
    by apply (encodeURIComponent_safe_upto (length q) q enc).
  - left. done.
Qed.

Lemma query_is_percent_encoded_witness :
  ∃ s', Search.callback_start (Some "/search/") [0x61; 0x26; 0x62; 0x3D; 0x31]%N
          Samples.idle_search = Normal s'
        ∧ ((Search.fetched s' = Search.fetched Samples.idle_search
            ∧ Search.results s'
              = {| Search.hidden := false; Search.innerHTML := Search.error_html |})
           ∨ ∃ enc, url_safe enc
                    ∧ Search.fetched s'
                      = Search.fetched Samples.idle_search
                        ++ [to_template (Some "/search/") +:+ "?q=" +:+ enc]).
Proof.
  apply (query_is_percent_encoded (Some "/search/") [0x61; 0x26; 0x62; 0x3D; 0x31]%N
           Samples.idle_search).
  repeat constructor.
Defined.

(** The text [a&b=1] is requested as [a%26b%3D1]. *)
Example ampersand_is_escaped :
  encodeURIComponent [0x61; 0x26; 0x62; 0x3D; 0x31]%N = Normal "a%26b%3D1".
Proof. reflexivity. Qed.

End EncodingProperties.

(** ** Hiding and rendering the results *)

Section PanelFurther.
Import Js Search SearchPanel.
Variable endpoint : option string.

Lemma hide_armed v s : armed v s → 2 ≤ length (trim v) →
  ∃ i, timeouts (hide s) = [ {| id := i; due := now (hide s) + 180; query := trim v |} ].
Proof.
  unfold armed. intros Ha Hl. rewrite bool_decide_false in Ha by lia.
  destruct Ha as (i & Ht & _). by exists i.
Qed.

(** X16: dismissing the panel does not cancel the search.  After an input
    event with an encodable query of at least two code units, a click outside
    the form or the Escape key hides the panel (Escape also takes the focus
    from the input) and keeps its content, but the scheduled request is still
    made once the 180 ms are over. *)
Theorem dismissing_keeps_the_search (value : domstring) (enc : string)
    (focused : bool) (s : state) (d : nat) :
  debounced s →
  2 ≤ length (trim value) →
  encodeURIComponent (trim value) = Normal enc →
  180 ≤ d →
  let typed := {| core := on_input value s; input_focused := focused |} in
  let url := to_template endpoint +:+ "?q=" +:+ enc in
  (let escaped := on_keydown "Escape" typed in
   hidden (results (core escaped)) = true
   ∧ innerHTML (results (core escaped)) = innerHTML (results s)
   ∧ input_focused escaped = false
   ∧ fetched (elapse endpoint d (core escaped)) = fetched s ++ [url])
  ∧ (let clicked := on_click false typed in
     hidden (results (core clicked)) = true
     ∧ innerHTML (results (core clicked)) = innerHTML (results s)
     ∧ input_focused clicked = focused
     ∧ fetched (elapse endpoint d (core clicked)) = fetched s ++ [url])
  ∧ on_click true typed = typed.
Proof.
  intros Hd Hl Henc Hdl typed url.
  pose proof (on_input_armed value s Hd) as Ha.
  destruct (hide_armed value _ Ha Hl) as (i & Ht).
  assert (Hr : innerHTML (results (on_input value s)) = innerHTML (results s)).
  { unfold on_input. by rewrite bool_decide_false by lia. }
  assert (Hf : fetched (elapse endpoint d (hide (on_input value s))) = fetched s ++ [url]).
  { destruct (elapse_due endpoint d _ _ Ht) as (_ & _ & _ & H); [simpl; lia|].
    cbn [query] in H. rewrite Henc in H. rewrite H.
    change (fetched (hide (on_input value s))) with (fetched (on_input value s)).
    by rewrite on_input_fetched. }
  split_and!; done.
Qed.

Lemma rendered_html_agree (p1 p2 : gmap string (list item)) :
  p1 !! "orders" = p2 !! "orders" →
  p1 !! "customers" = p2 !! "customers" →
  p1 !! "products" = p2 !! "products" →
  foldl (render_group p1) "" groups = foldl (render_group p2) "" groups.
Proof. intros H1 H2 H3. by rewrite !rendered_html, H1, H2, H3. Qed.

(** X17: what the renderer writes depends on the three arrays and on
    nothing else: two responses that agree on [orders], [customers] and
    [products] give the same panel, whatever other fields they carry and
    whatever the panel held or whether it was hidden before. *)
Theorem rendering_reads_three_fields (c1 c2 : panel) (p1 p2 : gmap string (list item)) :
  p1 !! "orders" = p2 !! "orders" →
  p1 !! "customers" = p2 !! "customers" →
  p1 !! "products" = p2 !! "products" →
  renderSearchResults c1 p1 = renderSearchResults c2 p2.
Proof.
  intros H1 H2 H3. unfold renderSearchResults.
  by rewrite (rendered_html_agree p1 p2 H1 H2 H3).
Qed.

End PanelFurther.

Lemma dismissing_keeps_the_search_witness :
  Search.fetched
    (Search.elapse (Some "/search/") 180
       (SearchPanel.core
          (SearchPanel.on_keydown "Escape"
             {| SearchPanel.core := Search.on_input Samples.ab Samples.idle_search;
                SearchPanel.input_focused := true |})))
  = [] ++ ["/search/?q=ab"].
Proof.
  destruct (dismissing_keeps_the_search (Some "/search/") Samples.ab "ab" true
              Samples.idle_search 180) as ((_ & _ & _ & H) & _).
  - apply debounced_initial.
  - vm_compute. lia.
  - reflexivity.
  - lia.
  - exact H.
Defined.

Lemma rendering_reads_three_fields_witness :
  Search.renderSearchResults {| Search.hidden := true; Search.innerHTML := "old" |}
    {[ "total" := [] ]}
  = Search.renderSearchResults {| Search.hidden := false; Search.innerHTML := "" |} ∅.
Proof.
  apply (rendering_reads_three_fields
           {| Search.hidden := true; Search.innerHTML := "old" |}
           {| Search.hidden := false; Search.innerHTML := "" |}
           {[ "total" := [] ]} ∅); reflexivity.
Defined.

(** ** Sidebar *)

Section SidebarProperties.
Import Dom Sidebar.

Lemma has_class_add c c' e :
  has_class c' (classList_add c e) ↔ c' = c ∨ has_class c' e.
Proof.
  unfold has_class, classList_add. cbn [classList]. case_bool_decide as H.
  - split; [by right|]. by intros [-> | ?].
  - rewrite elem_of_app, list_elem_of_singleton. tauto.
Qed.

Lemma has_class_remove c c' e :
  has_class c' (classList_remove c e) ↔ c' ≠ c ∧ has_class c' e.
Proof.
  unfold has_class, classList_remove. cbn [classList].
  by rewrite list_elem_of_filter.
Qed.



Lemma shows_open_open p :
  shows "is-open" (sidebar (open p)) ↔ is_Some (sidebar p).
Proof.
  unfold open. cbn [sidebar]. destruct (sidebar p) as [e|]; simpl.
  - rewrite has_class_add. split; [by eexists | by left].
  - split; [done | by intros [? ?]].
Qed.

Lemma shows_open_backdrop_open p :
  shows "is-open" (sidebarBackdrop (open p)) ↔ is_Some (sidebarBackdrop p).
Proof.
  unfold open. cbn [sidebarBackdrop]. destruct (sidebarBackdrop p) as [e|]; simpl.
  - rewrite has_class_add. split; [by eexists | by left].
  - split; [done | by intros [? ?]].
Qed.

Lemma close_closed p : closed (close p).
Proof.
  unfold closed, close. cbn [sidebar sidebarBackdrop].
  split.
  - destruct (sidebar p); simpl; [|by intros H].
    rewrite has_class_remove. by intros [? _].
  - destruct (sidebarBackdrop p); simpl; [|by intros H].
    rewrite has_class_remove. by intros [? _].
Qed.

Lemma closed_in_step p : closed p → in_step p.
Proof. intros [H1 H2]. unfold in_step. tauto. Qed.

Lemma open_in_step p : ready p → in_step (open p).
Proof.
  intros (Hs & Hb & _). unfold in_step.
  rewrite shows_open_open, shows_open_backdrop_open. tauto.
Qed.

Lemma ready_open p : ready p → ready (open p).
Proof.
  intros (Hs & Hb & Hl). unfold ready, open. cbn [sidebar sidebarBackdrop listening].
  split_and!; [|  |done]; by apply fmap_is_Some.
Qed.

Lemma ready_close p : ready p → ready (close p).
Proof.
  intros (Hs & Hb & Hl). unfold ready, close. cbn [sidebar sidebarBackdrop listening].
  split_and!; [|  |done]; by apply fmap_is_Some.
Qed.

Lemma ready_handle p ev : ready p → ready (handle p ev).
Proof.
  intros Hr. pose proof Hr as (_ & _ & Hl). unfold handle. rewrite Hl.
  destruct ev as [| |key].
  - case_bool_decide; [by apply ready_open | done].
  - by apply ready_close.
  - case_bool_decide; [by apply ready_close | done].
Qed.

Lemma in_step_handle p ev : ready p → in_step p → in_step (handle p ev).
Proof.
  intros Hr Hi. pose proof Hr as (_ & _ & Hl). unfold handle. rewrite Hl.
  destruct ev as [| |key].
  - case_bool_decide; [by apply open_in_step | done].
  - apply closed_in_step, close_closed.
  - case_bool_decide; [apply closed_in_step, close_closed | done].
Qed.

Lemma in_step_run evs : ∀ p, ready p → in_step p → in_step (run evs p).
Proof.
  induction evs as [|ev evs IH]; intros p Hr Hi; [done|].
  apply IH; [by apply ready_handle | by apply in_step_handle].
Qed.

Lemma sidebarToggle_handle p ev : sidebarToggle (handle p ev) = sidebarToggle p.
Proof.
  unfold handle. destruct (listening p); [|done].
  destruct ev; repeat case_bool_decide; done.
Qed.

Lemma ready_initSidebar p :
  is_Some (sidebar p) → is_Some (sidebarBackdrop p) → ready (initSidebar p).
Proof.
  intros [s Hs] [b Hb]. unfold initSidebar, ready. rewrite Hs, Hb.
  cbn [sidebar sidebarBackdrop listening]. split_and!; [by eexists | by eexists | done].
Qed.

(** X18: the panel and the backdrop move together.  On a page that has
    both, after the first event that opens or closes (a click on an existing
    toggle, a click on the backdrop, the Escape key) and after every event
    that follows, either both carry [is-open] or neither does, however the
    markup had them. *)
Theorem panel_and_backdrop_in_step (p : page) (ev : event) (evs : list event) :
  is_Some (sidebar p) →
  is_Some (sidebarBackdrop p) →
  acts p ev →
  in_step (run (ev :: evs) (initSidebar p)).
Proof.
  intros Hs Hb Ha. pose proof (ready_initSidebar p Hs Hb) as Hr.
  change (run (ev :: evs) (initSidebar p))
    with (run evs (handle (initSidebar p) ev)).
  apply in_step_run; [by apply ready_handle|].
  pose proof Hr as (_ & _ & Hl). unfold handle. rewrite Hl.
  assert (Ht : sidebarToggle (initSidebar p) = sidebarToggle p).
  { unfold initSidebar. by destruct (sidebar p), (sidebarBackdrop p). }
  destruct ev as [| |key]; simpl in Ha.
  - rewrite Ht, bool_decide_true by done. by apply open_in_step.
  - apply closed_in_step, close_closed.
  - rewrite bool_decide_true by done. apply closed_in_step, close_closed.
Qed.

Lemma panel_and_backdrop_in_step_witness :
  in_step (run [Keydown "Escape"; ClickToggle; Keydown "a"]
             (initSidebar Samples.panel_page)).
Proof.
  apply (panel_and_backdrop_in_step Samples.panel_page (Keydown "Escape")
           [ClickToggle; Keydown "a"]); [by eexists | by eexists | reflexivity].
Defined.




(** X20: without the panel or without the backdrop nothing is wired up:
    the page is returned as it is, and no click and no key changes it, not
    even a click on a toggle that is there. *)
Theorem sidebar_needs_panel_and_backdrop (p : page) (evs : list event) :
  sidebar p = None ∨ sidebarBackdrop p = None →
  listening p = false →
  initSidebar p = p ∧ run evs (initSidebar p) = p.
Proof.
  intros Hm Hl.
  assert (E : initSidebar p = p).
  { unfold initSidebar. destruct Hm as [-> | ->]; [done|]. by destruct (sidebar p). }
  split; [done|]. rewrite E. clear E Hm.
  induction evs as [|ev evs IH]; [done|].
  unfold run. cbn [foldl]. unfold handle at 2. rewrite Hl. apply IH.
Qed.

Lemma sidebar_needs_panel_and_backdrop_witness :
  initSidebar Samples.no_backdrop_page = Samples.no_backdrop_page
  ∧ run [ClickToggle; Keydown "Escape"] (initSidebar Samples.no_backdrop_page)
    = Samples.no_backdrop_page.
Proof.
  apply (sidebar_needs_panel_and_backdrop Samples.no_backdrop_page
           [ClickToggle; Keydown "Escape"]); [by right | reflexivity].
Defined.

End SidebarProperties.

(** ** Toasts *)

Section ToastProperties.
Import Toasts.

Lemma lookup_update j f s i :
  toasts (update j f s) !! i
  = if decide (j = i) then f <$> toasts s !! i else toasts s !! i.
Proof.
  unfold update. cbn [toasts]. destruct (decide (j = i)) as [-> | H].
  - apply list_lookup_alter_eq.
  - by apply list_lookup_alter_ne.
Qed.

Lemma fire_now s e : now (fire s e) = now s.
Proof. unfold fire. by destruct (act e). Qed.

Lemma fire_length s e : length (toasts (fire s e)) = length (toasts s).
Proof. unfold fire. destruct (act e); cbn; apply length_alter. Qed.

(** Running a timeout only adds timeouts, due 200 ms later. *)
Lemma fire_timers s e :
  ∃ l, timers (fire s e) = timers s ++ l ∧ Forall (λ x, due x = now s + 200) l.
Proof.
  unfold fire. destruct (act e) as [j | j].
  - eexists. split; [reflexivity|]. by repeat constructor.
  - exists []. split; [by rewrite app_nil_r | constructor].
Qed.

(** What a timeout does to a toast: nothing, fading or removal; the close
    button and its listener are never touched. *)
Lemma fire_toast s e i t :
  toasts s !! i = Some t →
  ∃ t', toasts (fire s e) !! i = Some t'
        ∧ (t' = t ∨ (t' = fade t ∧ act e = Hide i) ∨ (t' = detach t ∧ act e = Remove i)).
Proof.
  intros Ht. unfold fire. destruct (act e) as [j | j].
  - change (toasts (hideToast j s)) with (toasts (update j fade s)).
    rewrite lookup_update, Ht. destruct (decide (j = i)) as [-> | H].
    + exists (fade t). split; [done|]. right; left. done.
    + exists t. split; [done | by left].
  - rewrite lookup_update, Ht. destruct (decide (j = i)) as [-> | H].
    + exists (detach t). split; [done|]. right; right. done.
    + exists t. split; [done | by left].
Qed.

Lemma fire_removed s e i :
  (∃ t, toasts s !! i = Some t ∧ removed t = true) →
  ∃ t, toasts (fire s e) !! i = Some t ∧ removed t = true.
Proof.
  intros (t & Ht & Hr). destruct (fire_toast s e i t Ht) as (t' & Ht' & H).
  exists t'. split; [done|]. by destruct H as [-> | [[-> _] | [-> _]]].
Qed.

Lemma fire_keeps_due D i s e : removal_due D i s → removal_due D i (fire s e).
Proof.
  destruct (fire_timers s e) as (l & Hl & _).
  intros [H | [(x & Hx & Ha & Hd) | (x & Hx & Ha & Hd)]].
  - left. by apply fire_removed.
  - right; left. exists x. rewrite Hl, elem_of_app. auto.
  - right; right. exists x. rewrite Hl, elem_of_app. auto.
Qed.

(** The timeout that removes toast [i] removes it; the one that fades it
    schedules the removal 200 ms later. *)
Lemma fire_resolves D i s e :
  i < length (toasts s) →
  (act e = Remove i ∨ (act e = Hide i ∧ now s + 200 ≤ D)) →
  removal_due D i (fire s e).
Proof.
  intros Hi H. destruct (lookup_lt_is_Some_2 _ _ Hi) as [t Ht].
  unfold fire. destruct H as [-> | [-> Hd]].
  - left. exists (detach t). split; [|done].
    by rewrite lookup_update, decide_True, Ht.
  - right; left. exists {| due := now s + 200; act := Remove i |}.
    split; [|by split].
    unfold hideToast, setTimeout. cbn [timers]. apply elem_of_app. right. by left.
Qed.

Lemma fold_fire_now l : ∀ s, now (foldl fire s l) = now s.
Proof.
  induction l as [|e l IH]; intros s; [done|]. cbn [foldl]. by rewrite IH, fire_now.
Qed.

Lemma fold_fire_length l : ∀ s, length (toasts (foldl fire s l)) = length (toasts s).
Proof.
  induction l as [|e l IH]; intros s; [done|]. cbn [foldl]. by rewrite IH, fire_length.
Qed.

Lemma fold_fire_keeps_due D i l : ∀ s,
  removal_due D i s → removal_due D i (foldl fire s l).
Proof.
  induction l as [|e l IH]; intros s H; [done|]. by apply IH, fire_keeps_due.
Qed.

Lemma fold_fire_resolves D i l : ∀ s,
  i < length (toasts s) →
  (∃ e, e ∈ l ∧ (act e = Remove i ∨ (act e = Hide i ∧ now s + 200 ≤ D))) →
  removal_due D i (foldl fire s l).
Proof.
  induction l as [|x l IH]; intros s Hi (e & He & H).
  { by apply elem_of_nil in He. }
  cbn [foldl]. apply elem_of_cons in He as [-> | He].
  - by apply fold_fire_keeps_due, fire_resolves.
  - apply IH; [by rewrite fire_length|]. exists e. by rewrite fire_now.
Qed.

Lemma fold_fire_ahead l : ∀ s, timers_ahead s → timers_ahead (foldl fire s l).
Proof.
  induction l as [|e l IH]; intros s H; [done|]. cbn [foldl]. apply IH.
  unfold timers_ahead in *. destruct (fire_timers s e) as (n & -> & Hn).
  rewrite fire_now. apply Forall_app. split; [done|].
  eapply Forall_impl; [exact Hn|]. simpl. intros x ->. lia.
Qed.

Lemma tick_now s : now (tick s) = S (now s).
Proof. unfold tick. by rewrite fold_fire_now. Qed.

Lemma tick_length s : length (toasts (tick s)) = length (toasts s).
Proof. unfold tick. by rewrite fold_fire_length. Qed.

Lemma tick_ahead s : timers_ahead (tick s).
Proof.
  unfold tick. apply fold_fire_ahead. unfold timers_ahead. cbn [timers now].
  apply Forall_forall. intros e [He _]%list_elem_of_filter. lia.
Qed.

Lemma tick_keeps_due D i s :
  timers_ahead s → i < length (toasts s) →
  removal_due D i s → removal_due D i (tick s).
Proof.
  intros Ha Hi H. unfold tick.
  set (base := {| toasts := toasts s;
                  timers := filter (λ e, ¬ due e ≤ S (now s)) (timers s);
                  now := S (now s) |}).
  assert (Hsplit : ∀ x, x ∈ timers s →
            x ∈ timers base ∨ (x ∈ filter (λ e, due e ≤ S (now s)) (timers s)
                               ∧ due x = S (now s))).
  { intros x Hx. destruct (decide (due x ≤ S (now s))) as [Hd | Hd].
    - right. split; [by apply list_elem_of_filter|].
      unfold timers_ahead in Ha. rewrite Forall_forall in Ha. specialize (Ha x Hx). lia.
    - left. by apply list_elem_of_filter. }
  destruct H as [H | [(x & Hx & Hact & Hd) | (x & Hx & Hact & Hd)]].
  - apply fold_fire_keeps_due. by left.
  - destruct (Hsplit x Hx) as [Hb | [Hr _]].
    + apply fold_fire_keeps_due. right; left. by exists x.
    + apply fold_fire_resolves; [done|]. exists x. auto.
  - destruct (Hsplit x Hx) as [Hb | [Hr Hdue]].
    + apply fold_fire_keeps_due. right; right. by exists x.
    + apply fold_fire_resolves; [done|]. exists x. split; [done|].
      right. split; [done|]. cbn [now base]. lia.
Qed.

Lemma click_close_fire i s :
  click_close i s = s ∨ click_close i s = fire s {| due := 0; act := Hide i |}.
Proof.
  unfold click_close. destruct (toasts s !! i) as [t|]; [|by left].
  destruct (close_bound t); [by right | by left].
Qed.

Lemma handle_now s ev :
  now (handle s ev) = match ev with Tick => S (now s) | Close _ => now s end.
Proof.
  destruct ev as [|i]; cbn [handle]; [apply tick_now|].
  destruct (click_close_fire i s) as [-> | ->]; [done | apply fire_now].
Qed.

Lemma handle_length s ev : length (toasts (handle s ev)) = length (toasts s).
Proof.
  destruct ev as [|i]; cbn [handle]; [apply tick_length|].
  destruct (click_close_fire i s) as [-> | ->]; [done | apply fire_length].
Qed.

Lemma handle_ahead s ev : timers_ahead s → timers_ahead (handle s ev).
Proof.
  intros H. destruct ev as [|i]; cbn [handle]; [apply tick_ahead|].
  destruct (click_close_fire i s) as [-> | ->]; [done|].
  by apply (fold_fire_ahead [_]).
Qed.

Lemma handle_keeps_due D i s ev :
  timers_ahead s → i < length (toasts s) →
  removal_due D i s → removal_due D i (handle s ev).
Proof.
  intros Ha Hi H. destruct ev as [|j]; cbn [handle]; [by apply tick_keeps_due|].
  destruct (click_close_fire j s) as [-> | ->]; [done | by apply fire_keeps_due].
Qed.

Lemma run_now evs : ∀ s, now (run evs s) = now s + elapsed evs.
Proof.
  induction evs as [|ev evs IH]; intros s; [simpl; lia|].
  change (run (ev :: evs) s) with (run evs (handle s ev)).
  rewrite IH, handle_now. destruct ev; simpl; lia.
Qed.

Lemma run_length evs : ∀ s, length (toasts (run evs s)) = length (toasts s).
Proof.
  induction evs as [|ev evs IH]; intros s; [done|].
  change (run (ev :: evs) s) with (run evs (handle s ev)).
  by rewrite IH, handle_length.
Qed.

Lemma run_ahead evs : ∀ s, timers_ahead s → timers_ahead (run evs s).
Proof.
  induction evs as [|ev evs IH]; intros s H; [done|].
  by apply IH, handle_ahead.
Qed.

Lemma run_keeps_due D i evs : ∀ s,
  timers_ahead s → i < length (toasts s) →
  removal_due D i s → removal_due D i (run evs s).
Proof.
  induction evs as [|ev evs IH]; intros s Ha Hi H; [done|].
  change (run (ev :: evs) s) with (run evs (handle s ev)).
  apply IH; [by apply handle_ahead | by rewrite handle_length
            | by apply handle_keeps_due].
Qed.

(** When the deadline has passed, the toast is out. *)
Lemma removal_due_passed D i s :
  timers_ahead s → removal_due D i s → D ≤ now s →
  ∃ t, toasts s !! i = Some t ∧ removed t = true.
Proof.
  intros Ha H Hd. unfold timers_ahead in Ha. rewrite Forall_forall in Ha.
  destruct H as [H | [(x & Hx & _ & Hdue) | (x & Hx & _ & Hdue)]]; [done|..];
    specialize (Ha x Hx); lia.
Qed.

(** *** What [initToasts] sets up *)

Lemma fold_init_state l : ∀ s,
  now (foldl init_toast s l) = now s
  ∧ length (toasts (foldl init_toast s l)) = length (toasts s)
  ∧ timers (foldl init_toast s l)
    = timers s ++ ((λ i, {| due := now s + 4500; act := Hide i |}) <$> l).
Proof.
  induction l as [|j l IH]; intros s.
  { split_and!; [done|done|]. by rewrite app_nil_r. }
  cbn [foldl]. destruct (IH (init_toast s j)) as (-> & -> & ->).
  unfold init_toast, setTimeout, update. cbn [now toasts timers].
  split_and!; [done | apply length_alter |]. by rewrite <- app_assoc.
Qed.

Lemma fold_init_toast l : ∀ s i t,
  toasts s !! i = Some t →
  ∃ t', toasts (foldl init_toast s l) !! i = Some t'
        ∧ opacity t' = opacity t ∧ removed t' = removed t ∧ closeBtn t' = closeBtn t
        ∧ (i ∈ l ∨ close_bound t = closeBtn t → close_bound t' = closeBtn t).
Proof.
  induction l as [|j l IH]; intros s i t Ht.
  { exists t. split_and!; try done. intros [H | H]; [by apply elem_of_nil in H | done]. }
  cbn [foldl].
  assert (H1 : ∃ t1, toasts (init_toast s j) !! i = Some t1
                ∧ opacity t1 = opacity t ∧ removed t1 = removed t
                ∧ closeBtn t1 = closeBtn t
                ∧ (j = i ∨ close_bound t = closeBtn t → close_bound t1 = closeBtn t)).
  { unfold init_toast, setTimeout.
    change (toasts _) with (toasts (update j (λ t, {| opacity := opacity t;
      transform := transform t; removed := removed t; closeBtn := closeBtn t;
      close_bound := closeBtn t |}) s)).
    rewrite lookup_update, Ht. destruct (decide (j = i)) as [-> | Hne].
    - eexists. split; [reflexivity|]. by split_and!.
    - exists t. split_and!; try done. by intros [? | ?]. }
  destruct H1 as (t1 & Ht1 & Ho & Hr & Hc & Hb).
  destruct (IH _ i t1 Ht1) as (t' & Ht' & Ho' & Hr' & Hc' & Hb').
  exists t'. split_and!; [done | congruence | congruence | congruence |].
  intros H. rewrite <- Hc. apply Hb'.
  destruct H as [[-> | H]%elem_of_cons | H]; [right | by left | right];
    rewrite Hc; apply Hb; auto.
Qed.

Lemma initToasts_state cs :
  now (initToasts (served cs)) = 0
  ∧ length (toasts (initToasts (served cs))) = length cs
  ∧ timers (initToasts (served cs))
    = (λ i, {| due := 4500; act := Hide i |}) <$> seq 0 (length cs).
Proof.
  unfold initToasts.
  destruct (fold_init_state (seq 0 (length (toasts (served cs)))) (served cs))
    as (-> & -> & ->).
  unfold served. cbn [now toasts timers]. by rewrite length_fmap.
Qed.

Lemma initToasts_toast cs i c :
  cs !! i = Some c →
  ∃ t, toasts (initToasts (served cs)) !! i = Some t
       ∧ opacity t = "" ∧ removed t = false ∧ close_bound t = c.
Proof.
  intros Hc. unfold initToasts.
  assert (Hs : toasts (served cs) !! i
               = Some {| opacity := ""; transform := ""; removed := false;
                         closeBtn := c; close_bound := false |}).
  { unfold served. cbn [toasts]. by rewrite list_lookup_fmap, Hc. }
  destruct (fold_init_toast (seq 0 (length (toasts (served cs)))) _ i _ Hs)
    as (t & Ht & Ho & Hr & Hcb & Hb).
  exists t. split_and!; [done..|]. apply Hb. left.
  apply elem_of_seq. split; [lia|]. simpl. by eapply lookup_lt_Some.
Qed.

Lemma initToasts_ahead cs : timers_ahead (initToasts (served cs)).
Proof.
  unfold timers_ahead. destruct (initToasts_state cs) as (-> & _ & ->).
  apply Forall_fmap, Forall_forall. intros i _. simpl. lia.
Qed.

Lemma initToasts_due cs i :
  i < length cs → removal_due 4700 i (initToasts (served cs)).
Proof.
  intros Hi. right; right. exists {| due := 4500; act := Hide i |}.
  destruct (initToasts_state cs) as (_ & _ & ->).
  split; [|by split]. apply list_elem_of_fmap. exists i. split; [done|].
  apply elem_of_seq. lia.
Qed.

Lemma run_app a b s : run (a ++ b) s = run b (run a s).
Proof. apply foldl_app. Qed.

(** X21: no toast outlives 4700 ms.  Whatever close buttons are clicked
    and whenever, once 4700 ms have passed since [initToasts] every toast of
    the page has been taken out of the document. *)
Theorem toasts_gone_after_4700 (close_buttons : list bool) (evs : list event) (i : nat) :
  i < length close_buttons →
  4700 ≤ elapsed evs →
  ∃ t, toasts (run evs (initToasts (served close_buttons))) !! i = Some t
       ∧ removed t = true.
Proof.
  intros Hi He. destruct (initToasts_state close_buttons) as (Hn & Hl & _).
  apply (removal_due_passed 4700).
  - apply run_ahead, initToasts_ahead.
  - apply run_keeps_due; [apply initToasts_ahead | by rewrite Hl
                         | by apply initToasts_due].
  - rewrite run_now, Hn. lia.
Qed.

Lemma toasts_gone_after_4700_witness :
  ∃ t, toasts (run (replicate 4700 Tick) (initToasts (served [true; false]))) !! 1
       = Some t
       ∧ removed t = true.
Proof.
  apply (toasts_gone_after_4700 [true; false] (replicate 4700 Tick) 1).
  - simpl. lia.
  - vm_compute. lia.
Defined.

(** The close listener, once bound, stays. *)
Lemma fold_fire_bound l : ∀ s i t,
  toasts s !! i = Some t →
  ∃ t', toasts (foldl fire s l) !! i = Some t' ∧ close_bound t' = close_bound t.
Proof.
  induction l as [|e l IH]; intros s i t Ht; [by exists t|].
  cbn [foldl]. destruct (fire_toast s e i t Ht) as (t1 & Ht1 & H).
  destruct (IH _ i t1 Ht1) as (t' & Ht' & Hb). exists t'. split; [done|].
  rewrite Hb. by destruct H as [-> | [[-> _] | [-> _]]].
Qed.

Lemma handle_bound s ev i t :
  toasts s !! i = Some t →
  ∃ t', toasts (handle s ev) !! i = Some t' ∧ close_bound t' = close_bound t.
Proof.
  intros Ht. destruct ev as [|j]; cbn [handle].
  - unfold tick. by apply fold_fire_bound.
  - destruct (click_close_fire j s) as [-> | ->]; [by exists t|].
    by apply (fold_fire_bound [_]).
Qed.

Lemma run_bound evs : ∀ s i t,
  toasts s !! i = Some t →
  ∃ t', toasts (run evs s) !! i = Some t' ∧ close_bound t' = close_bound t.
Proof.
  induction evs as [|ev evs IH]; intros s i t Ht; [by exists t|].
  change (run (ev :: evs) s) with (run evs (handle s ev)).
  destruct (handle_bound s ev i t Ht) as (t1 & Ht1 & <-). by apply IH.
Qed.

(** X22: a toast that is closed by hand is out 200 ms later.  At whatever
    moment the close button of a toast that has one is clicked, and whatever
    else happens on the page, once 200 ms have passed since the click that
    toast has been taken out of the document. *)
Theorem closed_toast_gone_after_200 (close_buttons : list bool)
    (before after : list event) (i : nat) :
  close_buttons !! i = Some true →
  200 ≤ elapsed after →
  ∃ t, toasts (run (before ++ Close i :: after) (initToasts (served close_buttons))) !! i
       = Some t
       ∧ removed t = true.
Proof.
  intros Hc He. rewrite run_app.
  set (s1 := run before (initToasts (served close_buttons))).
  change (run (Close i :: after) s1) with (run after (click_close i s1)).
  destruct (initToasts_toast close_buttons i true Hc) as (t0 & Ht0 & _ & _ & Hb0).
  destruct (run_bound before _ i t0 Ht0) as (t1 & Ht1 & Hb1). fold s1 in Ht1.
  assert (Ha : timers_ahead s1) by apply run_ahead, initToasts_ahead.
  assert (Hi : i < length (toasts s1)) by by eapply lookup_lt_Some.
  assert (E : click_close i s1 = fire s1 {| due := 0; act := Hide i |}).
  { unfold click_close. rewrite Ht1, Hb1, Hb0. done. }
  apply (removal_due_passed (now s1 + 200)).
  - apply run_ahead. rewrite E. by apply (fold_fire_ahead [_]).
  - apply run_keeps_due.
    + rewrite E. by apply (fold_fire_ahead [_]).
    + by rewrite E, fire_length.
    + rewrite E. apply fire_resolves; [done|]. right. by split.
  - rewrite run_now, E, fire_now. lia.
Qed.

Lemma closed_toast_gone_after_200_witness :
  ∃ t, toasts (run (replicate 1000 Tick ++ Close 0 :: replicate 200 Tick)
                 (initToasts (served [true; false]))) !! 0
       = Some t
       ∧ removed t = true.
Proof.
  apply (closed_toast_gone_after_200 [true; false] (replicate 1000 Tick)
           (replicate 200 Tick) 0).
  - reflexivity.
  - vm_compute. lia.
Defined.

(** *** The timetable of a toast nobody closes *)

Lemma fire_on_schedule i s e :
  on_schedule i s →
  (act e = Hide i → 4500 ≤ now s) →
  (act e = Remove i → 4700 ≤ now s) →
  on_schedule i (fire s e).
Proof.
  intros [Ht Htm] Hh Hr. split.
  - intros x Hx. rewrite fire_now.
    assert (Hi : i < length (toasts s)).
    { rewrite <- (fire_length s e). by eapply lookup_lt_Some. }
    destruct (lookup_lt_is_Some_2 _ _ Hi) as [t Hlt].
    destruct (fire_toast s e i t Hlt) as (t' & Ht' & H).
    assert (t' = x) as -> by congruence. destruct (Ht t Hlt) as [H1 H2].
    destruct H as [-> | [[-> Ha] | [-> Ha]]]; [done | |].
    + split; [done|]. intros _. by apply Hh.
    + split; [|done]. intros _. by apply Hr.
  - unfold fire. destruct (act e) as [j | j] eqn:Ea.
    + unfold hideToast, setTimeout. cbn [timers update now].
      apply Forall_app. split; [done|]. apply Forall_singleton. cbn [act due].
      split; [done|]. intros [= ->]. specialize (Hh eq_refl). lia.
    + done.
Qed.

Lemma fold_fire_on_schedule i l : ∀ s,
  on_schedule i s →
  Forall (λ e, (act e = Hide i → 4500 ≤ now s) ∧ (act e = Remove i → 4700 ≤ now s)) l →
  on_schedule i (foldl fire s l).
Proof.
  induction l as [|e l IH]; intros s Hs Hl; [done|].
  apply Forall_cons in Hl as [[Hh Hr] Hl]. cbn [foldl].
  apply IH; [by apply fire_on_schedule|]. by rewrite fire_now.
Qed.

Lemma tick_on_schedule i s : on_schedule i s → on_schedule i (tick s).
Proof.
  intros [Ht Htm]. rewrite Forall_forall in Htm. unfold tick.
  apply fold_fire_on_schedule.
  - split.
    + cbn [toasts now]. intros x Hx. destruct (Ht x Hx) as [H1 H2].
      split; intros H; [specialize (H1 H) | specialize (H2 H)]; lia.
    + cbn [timers]. apply Forall_forall. intros e [_ He]%list_elem_of_filter. auto.
  - cbn [now]. apply Forall_forall. intros e [Hd He]%list_elem_of_filter.
    destruct (Htm e He) as [H1 H2].
    split; intros H; [specialize (H1 H) | specialize (H2 H)]; lia.
Qed.

Lemma handle_on_schedule i s ev :
  ev ≠ Close i → on_schedule i s → on_schedule i (handle s ev).
Proof.
  intros Hne Hs. destruct ev as [|j]; cbn [handle]; [by apply tick_on_schedule|].
  destruct (click_close_fire j s) as [-> | ->]; [done|].
  apply fire_on_schedule; [done| |]; cbn [act]; intros [=]. congruence.
Qed.

Lemma run_on_schedule i evs : ∀ s,
  Close i ∉ evs → on_schedule i s → on_schedule i (run evs s).
Proof.
  induction evs as [|ev evs IH]; intros s Hn Hs; [done|].
  apply not_elem_of_cons in Hn as [Hne Hn].
  change (run (ev :: evs) s) with (run evs (handle s ev)).
  apply IH; [done|]. apply handle_on_schedule; [congruence | done].
Qed.

Lemma initToasts_on_schedule cs i : on_schedule i (initToasts (served cs)).
Proof.
  split.
  - intros x Hx.
    assert (Hi : i < length cs).
    { destruct (initToasts_state cs) as (_ & <- & _). by eapply lookup_lt_Some. }
    destruct (lookup_lt_is_Some_2 _ _ Hi) as [c Hc].
    destruct (initToasts_toast cs i c Hc) as (t & Ht & Ho & Hr & _).
    assert (t = x) as -> by congruence. rewrite Ho, Hr. by split.
  - destruct (initToasts_state cs) as (_ & _ & ->).
    apply Forall_fmap, Forall_forall. intros j _. simpl. split; [lia|done].
Qed.

(** X23: a toast nobody closes keeps its timetable.  As long as its own
    close button is not clicked, whatever happens to the other toasts, it is
    not faded before 4500 ms and not taken out of the document before
    4700 ms have passed since [initToasts]. *)
Theorem unclosed_toast_keeps_timetable (close_buttons : list bool)
    (evs : list event) (i : nat) (t : toast) :
  Close i ∉ evs →
  toasts (run evs (initToasts (served close_buttons))) !! i = Some t →
  (removed t = true → 4700 ≤ elapsed evs)
  ∧ (faded t → 4500 ≤ elapsed evs).
Proof.
  intros Hn Ht.
  destruct (run_on_schedule i evs _ Hn (initToasts_on_schedule close_buttons i))
    as [H _].
  destruct (H t Ht) as [H1 H2]. rewrite run_now in H1, H2.
  destruct (initToasts_state close_buttons) as (Hz & _). rewrite Hz in H1, H2.
  split; [done|]. unfold faded. intros Hf. apply H2. by rewrite Hf.
Qed.

Lemma unclosed_toast_keeps_timetable_witness :
  (removed (fade {| opacity := ""; transform := ""; removed := false;
                    closeBtn := false; close_bound := false |}) = true →
   4700 ≤ elapsed (Close 0 :: replicate 4500 Tick))
  ∧ (faded (fade {| opacity := ""; transform := ""; removed := false;
                    closeBtn := false; close_bound := false |}) →
     4500 ≤ elapsed (Close 0 :: replicate 4500 Tick)).
Proof.
  apply (unclosed_toast_keeps_timetable [true; false]
           (Close 0 :: replicate 4500 Tick) 1).
  - intros H. apply elem_of_cons in H as [H | H]; [discriminate H|].
    apply elem_of_replicate in H as [H _]. discriminate H.
  - vm_compute. reflexivity.
Defined.

End ToastProperties.

(** ** Copy to clipboard *)

Section CopyProperties.
Import Js Dom CopyButtons.

(** X24: a copy that does not succeed shows nothing.  When the clicked
    widget's payload is missing or empty, or the legacy copy command reports
    failure, or the clipboard promise rejects, the listener has prevented the
    default action and changed nothing else: the clipboard, every widget, the
    body and the timeouts are as before.  Only in the last case does the
    listener's promise reject. *)
Theorem failed_copy_shows_nothing (api : clipboard_api) (i : nat) (w : widget)
    (s : state) :
  widgets s !! i = Some w →
  (Js.or_default (dataset (button w) "copy") "" = ""
   ∨ api = Legacy false ∨ api = AsyncClipboard false) →
  (on_click api (Some i) s).1 = preventDefault s
  ∧ ((on_click api (Some i) s).2 = Normal ()
     ∨ (api = AsyncClipboard false ∧ ∃ e, (on_click api (Some i) s).2 = Throw e)).
Proof.
  intros Hw H. unfold on_click. rewrite Hw. unfold copyText.
  destruct (dataset (button w) "copy") as [t|] eqn:Et; [|by split; [|left]].
  destruct (truthy t) eqn:Ett; cbn [negb]; [|by split; [|left]].
  destruct H as [H | [-> | ->]].
  - destruct t; [discriminate Ett | discriminate H].
  - split; [|by left]. cbn [fst]. unfold set_body, preventDefault.
    cbn [clipboard body widgets timers now defaultPrevented].
    by rewrite take_app_length.
  - split; [done|]. right. split; [done|]. by eexists.
Qed.

Lemma failed_copy_shows_nothing_witness :
  (on_click (AsyncClipboard true) (Some 1) Samples.copy_page).1
  = preventDefault Samples.copy_page
  ∧ ((on_click (AsyncClipboard true) (Some 1) Samples.copy_page).2 = Normal ()
     ∨ (AsyncClipboard true = AsyncClipboard false
        ∧ ∃ e, (on_click (AsyncClipboard true) (Some 1) Samples.copy_page).2 = Throw e)).
Proof.
  apply (failed_copy_shows_nothing (AsyncClipboard true) 1 Samples.empty_copy_widget
           Samples.copy_page); [reflexivity | by left].
Defined.

Lemma update_widget j f s i :
  widgets (update j f s) !! i
  = if decide (j = i) then f <$> widgets s !! i else widgets s !! i.
Proof.
  unfold update. cbn [widgets]. destruct (decide (j = i)) as [-> | H].
  - apply list_lookup_alter_eq.
  - by apply list_lookup_alter_ne.
Qed.

Lemma tick_idle s :
  timers s = [] →
  timers (tick s) = [] ∧ widgets (tick s) = widgets s ∧ now (tick s) = S (now s)
  ∧ clipboard (tick s) = clipboard s.
Proof. intros H. unfold tick. by rewrite H. Qed.

Lemma tick_waiting T i s :
  timers s = [(T, i)] → S (now s) < T →
  timers (tick s) = [(T, i)] ∧ widgets (tick s) = widgets s ∧ now (tick s) = S (now s)
  ∧ clipboard (tick s) = clipboard s.
Proof.
  intros H Hlt. unfold tick. rewrite H.
  rewrite (filter_cons_False (λ e, e.1 ≤ S (now s))) by (simpl; lia).
  rewrite (filter_cons_True (λ e, ¬ e.1 ≤ S (now s))) by (simpl; lia).
  by rewrite !filter_nil.
Qed.

Lemma tick_due T i s :
  timers s = [(T, i)] → T ≤ S (now s) →
  timers (tick s) = [] ∧ widgets (tick s) = alter revert i (widgets s)
  ∧ now (tick s) = S (now s) ∧ clipboard (tick s) = clipboard s.
Proof.
  intros H Hle. unfold tick. rewrite H.
  rewrite (filter_cons_True (λ e, e.1 ≤ S (now s))) by (simpl; lia).
  rewrite (filter_cons_False (λ e, ¬ e.1 ≤ S (now s))) by (simpl; lia).
  by rewrite !filter_nil.
Qed.

Lemma elapse_idle_copy d : ∀ s,
  timers s = [] →
  timers (elapse d s) = [] ∧ widgets (elapse d s) = widgets s
  ∧ clipboard (elapse d s) = clipboard s.
Proof.
  induction d as [|d IH]; intros s H; [done|].
  change (elapse (S d) s) with (tick (elapse d s)).
  destruct (IH s H) as (Ht & Hw & Hc).
  destruct (tick_idle _ Ht) as (-> & -> & _ & ->). done.
Qed.

Lemma elapse_waiting_copy T i d : ∀ s,
  timers s = [(T, i)] → now s + d < T →
  timers (elapse d s) = [(T, i)] ∧ widgets (elapse d s) = widgets s
  ∧ now (elapse d s) = now s + d ∧ clipboard (elapse d s) = clipboard s.
Proof.
  induction d as [|d IH]; intros s H Hlt.
  { split_and!; try done; simpl; lia. }
  change (elapse (S d) s) with (tick (elapse d s)).
  destruct (IH s H) as (Ht & Hw & Hn & Hc); [lia|].
  destruct (tick_waiting T i _ Ht) as (-> & -> & -> & ->); [lia|].
  split_and!; try done. lia.
Qed.

Lemma elapse_add a b s : elapse (a + b) s = elapse a (elapse b s).
Proof. unfold elapse. apply Nat.iter_add. Qed.

Lemma elapse_due_copy T i d s :
  timers s = [(T, i)] → now s < T → T ≤ now s + d →
  widgets (elapse d s) = alter revert i (widgets s)
  ∧ clipboard (elapse d s) = clipboard s.
Proof.
  intros H Hlt Hle.
  assert (d = (d - (T - now s)) + 1 + (T - now s - 1)) as -> by lia.
  rewrite !elapse_add.
  destruct (elapse_waiting_copy T i (T - now s - 1) s H) as (Ht & Hw & Hn & Hc); [lia|].
  change (elapse 1 ?x) with (tick x).
  destruct (tick_due T i _ Ht) as (Ht' & Hw' & _ & Hc'); [lia|].
  destruct (elapse_idle_copy (d - (T - now s)) _ Ht') as (_ & -> & ->).
  by rewrite Hw', Hw, Hc', Hc.
Qed.

Lemma reverted_not_confirming w : ¬ confirming (revert w).
Proof.
  unfold confirming, revert. cbn [button icon].
  intros [H | (i & Hi & H)].
  - apply has_class_remove in H as [H _]. by apply H.
  - destruct (icon w) as [x|]; [|done]. injection Hi as <-.
    apply has_class_add in H as [H | H]; [discriminate H|].
    apply has_class_remove in H as [H _]. by apply H.
Qed.

Lemma reverted_icon w i :
  icon (revert w) = Some i → has_class "bi-clipboard" i ∧ ¬ has_class "bi-check2" i.
Proof.
  unfold revert. cbn [icon]. destruct (icon w) as [x|]; [|done]. intros [= <-].
  split.
  - apply has_class_add. by left.
  - intros H. apply has_class_add in H as [H | H]; [discriminate H|].
    apply has_class_remove in H as [H _]. by apply H.
Qed.

Lemma marked_confirming w : has_class "is-copied" (button (mark w)).
Proof. unfold mark. cbn [button]. apply has_class_add. by left. Qed.

(** X25: the confirmation of a copy lasts 1400 ms.  When the clicked
    widget has a non-empty payload, the browser copies it and no revert is
    pending, the clipboard holds the payload, the helper textarea is gone, the
    widget is marked copied until 1400 ms have passed and from then on it is
    not: the button has lost [is-copied] and its icon shows [bi-clipboard]
    and not [bi-check2]; the clipboard keeps the payload. *)
Theorem copy_confirmation_is_transient (api : clipboard_api) (i : nat) (w : widget)
    (text : string) (s : state) (d : nat) :
  widgets s !! i = Some w →
  dataset (button w) "copy" = Some text →
  text ≠ "" →
  api = AsyncClipboard true ∨ api = Legacy true →
  timers s = [] →
  let s1 := (on_click api (Some i) s).1 in
  (on_click api (Some i) s).2 = Normal ()
  ∧ clipboard s1 = text
  ∧ body s1 = body s
  ∧ defaultPrevented s1 = true
  ∧ clipboard (elapse d s1) = text
  ∧ (d < 1400 →
       widgets (elapse d s1) !! i = Some (mark w)
       ∧ has_class "is-copied" (button (mark w)))
  ∧ (1400 ≤ d →
       widgets (elapse d s1) !! i = Some (revert (mark w))
       ∧ ¬ confirming (revert (mark w))
       ∧ ∀ x, icon (revert (mark w)) = Some x →
              has_class "bi-clipboard" x ∧ ¬ has_class "bi-check2" x).
Proof.
  intros Hw Ht Hne Hapi Htm s1.
  assert (Htr : truthy text = true) by by destruct text.
  assert (E : on_click api (Some i) s
              = (setTimeout i 1400 (update i mark (set_clipboard text (preventDefault s))),
                 Normal ())).
  { unfold on_click. rewrite Hw. unfold copyText. rewrite Ht, Htr. cbn [negb].
    destruct Hapi as [-> | ->]; [done|].
    unfold set_body, set_clipboard, preventDefault.
    cbn [clipboard body widgets timers now defaultPrevented].
    by rewrite take_app_length. }
  subst s1. rewrite E. cbn [fst snd].
  set (s1 := setTimeout i 1400 (update i mark (set_clipboard text (preventDefault s)))).
  assert (Ht1 : timers s1 = [(now s1 + 1400, i)]).
  { subst s1. unfold setTimeout. cbn [timers update set_clipboard preventDefault now].
    by rewrite Htm. }
  assert (Hw1 : widgets s1 !! i = Some (mark w)).
  { subst s1. change (widgets (setTimeout i 1400 ?x)) with (widgets x).
    rewrite update_widget, decide_True by done.
    change (widgets (set_clipboard text (preventDefault s))) with (widgets s).
    by rewrite Hw. }
  split_and!; [done | done | done | done | | |].
  - destruct (decide (d < 1400)) as [Hd | Hd].
    + by destruct (elapse_waiting_copy _ i d s1 Ht1) as (_ & _ & _ & ->); [lia|].
    + by destruct (elapse_due_copy _ i d s1 Ht1) as (_ & ->); [lia | lia|].
  - intros Hd. split; [|apply marked_confirming].
    destruct (elapse_waiting_copy _ i d s1 Ht1) as (_ & -> & _); [lia | done].
  - intros Hd. split_and!.
    + destruct (elapse_due_copy _ i d s1 Ht1) as (-> & _); [lia | lia|].
      by rewrite list_lookup_alter_eq, Hw1.
    + apply reverted_not_confirming.
    + apply reverted_icon.
Qed.

Lemma copy_confirmation_is_transient_witness :
  let s1 := (on_click (Legacy true) (Some 0) Samples.copy_page).1 in
  (on_click (Legacy true) (Some 0) Samples.copy_page).2 = Normal ()
  ∧ clipboard s1 = "ABC"
  ∧ body s1 = body Samples.copy_page
  ∧ defaultPrevented s1 = true
  ∧ clipboard (elapse 1400 s1) = "ABC"
  ∧ (1400 < 1400 →
       widgets (elapse 1400 s1) !! 0 = Some (mark Samples.copy_widget)
       ∧ has_class "is-copied" (button (mark Samples.copy_widget)))
  ∧ (1400 ≤ 1400 →
       widgets (elapse 1400 s1) !! 0 = Some (revert (mark Samples.copy_widget))
       ∧ ¬ confirming (revert (mark Samples.copy_widget))
       ∧ ∀ x, icon (revert (mark Samples.copy_widget)) = Some x →
              has_class "bi-clipboard" x ∧ ¬ has_class "bi-check2" x).
Proof.
  apply (copy_confirmation_is_transient (Legacy true) 0 Samples.copy_widget "ABC"
           Samples.copy_page 1400);
    [reflexivity | reflexivity | discriminate | by right | reflexivity].
Defined.

End CopyProperties.

(** ** Custom date range *)

Section DateRangeProperties.
Import DateRange.

(** The listener is on and the group's display goes with the value. *)
Lemma changes_follow vs : ∀ p v,
  listening p = true → dateRangePreset p = Some v →
  customRange p = Some (display_for v) →
  dateRangePreset (changes vs p) = Some (default v (last vs))
  ∧ customRange (changes vs p) = Some (display_for (default v (last vs))).
Proof.
  induction vs as [|a vs IH]; intros p v Hl Hv Hc; [done|].
  change (changes (a :: vs) p) with (changes vs (change a p)).
  assert (E : default v (last (a :: vs)) = default a (last vs)).
  { destruct vs as [|b vs]; [done|]. rewrite last_cons_cons.
    by destruct (last_is_Some (b :: vs)) as [_ [x ->]]. }
  rewrite E. apply IH; unfold change; rewrite Hv, Hl; unfold sync;
    cbn [listening dateRangePreset customRange]; [done | done |].
  rewrite Hc. unfold display_for. by repeat case_bool_decide; simplify_eq.
Qed.

(** X26: the custom range follows the preset.  On a page that has both
    the select and the group, after initialization and after every change of
    the select the group is displayed as [flex] exactly when the select's
    value is [custom], and as [none] otherwise, whatever display it had in
    the markup. *)
Theorem custom_range_follows_preset (p : page) (v shown : string) (vs : list string) :
  dateRangePreset p = Some v →
  customRange p = Some shown →
  let p' := changes vs (initCustomDateRange p) in
  dateRangePreset p' = Some (default v (last vs))
  ∧ customRange p'
    = Some (if bool_decide (default v (last vs) = "custom") then "flex" else "none").
Proof.
  intros Hv Hc p'. subst p'. apply changes_follow.
  - unfold initCustomDateRange. by rewrite Hv, Hc.
  - unfold initCustomDateRange. by rewrite Hv, Hc.
  - unfold initCustomDateRange, sync, display_for. rewrite Hv, Hc.
    cbn [customRange dateRangePreset]. by repeat case_bool_decide; simplify_eq.
Qed.

Lemma custom_range_follows_preset_witness :
  let p' := changes ["custom"; "month"] (initCustomDateRange Samples.report_page) in
  dateRangePreset p' = Some "month" ∧ customRange p' = Some "none".
Proof.
  apply (custom_range_follows_preset Samples.report_page "week" ""
           ["custom"; "month"]); reflexivity.
Defined.

End DateRangeProperties.
